(** * A shallow embedding of tools/upload_postimages_album.py

    The script drives a browser through the upload form of postimages.org.
    The browser is modelled as an oracle [Page]: every DOM lookup and every
    browser action is answered by the page, as a function of the history of
    the session so far (the trace of performed actions), and may raise.
    Statements run in a small monad that threads that trace and propagates
    exceptions, as Python does.  [main] is modelled with its own trace of
    printed messages, calls of [upload_files] and shell commands. *)

From Stdlib Require Import List String Ascii ZArith Lia Bool Sorted Permutation.
Import ListNotations.
Open Scope string_scope.
Open Scope list_scope.

(** ** Exceptions and results *)

Inductive exn : Type :=
| SystemExit (msg : string)
| ValueError (msg : string)
| Error (msg : string).

Inductive res (A : Type) : Type :=
| Ok (a : A)
| Exc (e : exn).
Arguments Ok {A} a.
Arguments Exc {A} e.

(** Python truthiness of an optional string: [None] and the empty string are false. *)
Definition truthy (s : option string) : bool :=
  match s with
  | Some (String _ _) => true
  | _ => false
  end.

(** [needle in hay] for Python strings. *)
Fixpoint contains (needle hay : string) : bool :=
  if String.prefix needle hay then true
  else match hay with
       | EmptyString => false
       | String _ rest => contains needle rest
       end.

(** ** The browser *)

Definition elem := nat.

Definition URL := "https://postimages.org/".

(** Messages printed by [upload_files]. *)
Inductive message : Type :=
| MsgNoFileInput                         (* "ERROR: file input not found ..." *)
| MsgNoMultiple                          (* "File input does NOT support multiple files ..." *)
| MsgUploadingAll (n : nat) (sel : string)
| MsgNoButton                            (* "Warning: upload button not found/clicked ..." *)
| MsgUploadingOne (i n : nat) (f : string).

(** Actions that change the session; [Print] is output on stdout. *)
Inductive event : Type :=
| Launch (headless : bool)
| NewPage
| Goto (url : string)
| Print (m : message)
| Close
| SetFiles (el : elem) (fs : list string)
| Fill (el : elem) (s : string)
| Click (el : elem)
| Press (key : string)
| Wait (ms : Z).

Definition trace := list event.

(** The page answers each lookup and each action from the history. *)
Record Page : Type := {
  query_selector : trace -> string -> res (option elem);
  query_selector_all : trace -> string -> res (list elem);
  get_attribute : trace -> elem -> string -> res (option string);
  is_multiple : trace -> elem -> res bool;
  act : trace -> event -> res unit
}.

(** ** The session monad *)

(** A computation that appends to a trace of events [E] and may raise. *)
Definition St (E A : Type) : Type := list E -> res A * list E.

Definition M (A : Type) : Type := St event A.

Definition ret {E A} (a : A) : St E A := fun tr => (Ok a, tr).

Definition bind {E A B} (m : St E A) (k : A -> St E B) : St E B :=
  fun tr => match m tr with
            | (Ok a, tr') => k a tr'
            | (Exc e, tr') => (Exc e, tr')
            end.

Notation "'let*' x := m 'in' k" := (bind m (fun x => k))
  (at level 200, x name, m at level 100, k at level 200).
Notation "m ;; k" := (bind m (fun _ => k)) (at level 100, right associativity).

(** [try: m except Exception: h]; effects done before the raise remain. *)
Definition try_ {E A} (m : St E A) (h : St E A) : St E A :=
  fun tr => match m tr with
            | (Ok a, tr') => (Ok a, tr')
            | (Exc _, tr') => h tr'
            end.

Definition print (m : message) : M unit := fun tr => (Ok tt, tr ++ [Print m]).

(** A browser action: done (and recorded) unless the page raises. *)
Definition perform (pg : Page) (ev : event) : M unit :=
  fun tr => match act pg tr ev with
            | Ok _ => (Ok tt, tr ++ [ev])
            | Exc e => (Exc e, tr)
            end.

Definition qs (pg : Page) (sel : string) : M (option elem) :=
  fun tr => (query_selector pg tr sel, tr).
Definition qsa (pg : Page) (sel : string) : M (list elem) :=
  fun tr => (query_selector_all pg tr sel, tr).
Definition attr (pg : Page) (el : elem) (name : string) : M (option string) :=
  fun tr => (get_attribute pg tr el name, tr).
Definition multiple (pg : Page) (el : elem) : M bool :=
  fun tr => (is_multiple pg tr el, tr).

(** ** Selectors *)

(** The double quote character, used inside the selectors. *)
Definition dq : string := String (ascii_of_nat 34) EmptyString.
Definition quoted (s : string) : string := (dq ++ s ++ dq)%string.

Definition FILE_INPUT_SELECTORS : list string :=
  [ ("input[type=" ++ quoted "file" ++ "]")%string;
    ("input[name=" ++ quoted "upload[]" ++ "]")%string;
    "input#uploadFiles";
    ("input[name=" ++ quoted "files[]" ++ "]")%string ].

Definition ALBUM_INPUT_SELECTORS : list string :=
  [ ("input[name=" ++ quoted "album_title" ++ "]")%string;
    "input#album-title";
    ("input[placeholder*=" ++ quoted "Album" ++ "]")%string;
    ("input[placeholder*=" ++ quoted "album" ++ "]")%string ].

Definition UPLOAD_BUTTON_SELECTORS : list string :=
  [ ("button:has-text(" ++ quoted "Upload" ++ ")")%string;
    ("button:has-text(" ++ quoted "Start upload" ++ ")")%string;
    ("button[type=" ++ quoted "submit" ++ "]")%string ].

Definition RESULT_LINK_SELECTOR : string :=
  ("a[href*=" ++ quoted "postimages.org" ++ "], a[href*=" ++ quoted "postimg.cc"
  ++ "], div.result a, div.links a, div#links a")%string.

Definition ALBUM_LINK_SELECTOR : string :=
  ("a[href*=" ++ quoted "/album/" ++ "], a[href*=" ++ quoted "/a/" ++ "]")%string.

(** ** find_file_input *)

Fixpoint find_file_input_in (pg : Page) (sels : list string)
  : M (option (elem * string)) :=
  match sels with
  | [] => ret None
  | sel :: rest =>
      let* r := try_ (let* el := qs pg sel in
                      match el with
                      | Some e => ret (Some (e, sel))
                      | None => ret None
                      end)
                     (ret None) in
      match r with
      | Some x => ret (Some x)
      | None => find_file_input_in pg rest
      end
  end.

Definition find_file_input (pg : Page) : M (option (elem * string)) :=
  find_file_input_in pg FILE_INPUT_SELECTORS.

(** ** click_upload *)

Fixpoint click_upload_in (pg : Page) (sels : list string) : M bool :=
  match sels with
  | [] => try_ (perform pg (Press "Enter");; ret true) (ret false)
  | sel :: rest =>
      let* r := try_ (let* btn := qs pg sel in
                      match btn with
                      | Some b => perform pg (Click b);; ret true
                      | None => ret false
                      end)
                     (ret false) in
      if r then ret true else click_upload_in pg rest
  end.

Definition click_upload (pg : Page) : M bool :=
  click_upload_in pg UPLOAD_BUTTON_SELECTORS.

(** ** Filling the album title (the loop written twice in upload_files) *)

Fixpoint fill_album_title_in (pg : Page) (title : string) (sels : list string)
  : M unit :=
  match sels with
  | [] => ret tt
  | sel :: rest =>
      let* done_ := try_ (let* el := qs pg sel in
                          match el with
                          | Some e => perform pg (Fill e title);; ret true
                          | None => ret false
                          end)
                         (ret false) in
      if done_ then ret tt else fill_album_title_in pg title rest
  end.

Definition fill_album_title (pg : Page) (title : string) : M unit :=
  fill_album_title_in pg title ALBUM_INPUT_SELECTORS.

(** ** collect_result_links *)

(** [found] is a Python set; it is kept as a list without repetitions.
    The order of [list(found)] is the iteration order of the set, which
    the claims below never depend on. *)
Definition set_add (h : string) (found : list string) : list string :=
  if existsb (String.eqb h) found then found else found ++ [h].

Definition is_link (href : string) : bool :=
  contains "postimages.org" href || contains "postimg.cc" href.

(** The [for a in anchors] loop, each step guarded by try/except. *)
Fixpoint gather (pg : Page) (anchors : list elem) (found : list string)
  : M (list string) :=
  match anchors with
  | [] => ret found
  | a :: rest =>
      let* found' := try_ (let* href := attr pg a "href" in
                           match href with
                           | Some h => if truthy href && is_link h
                                       then ret (set_add h found)
                                       else ret found
                           | None => ret found
                           end)
                          (ret found) in
      gather pg rest found'
  end.

Definition STEP : Z := 2000.

(** One execution of the body of [while elapsed < timeout_ms]. *)
Fixpoint poll (pg : Page) (timeout_ms : Z) (fuel : nat) (elapsed : Z)
         (found : list string) : M (list string) :=
  match fuel with
  | O => ret found
  | S fuel' =>
      if (elapsed <? timeout_ms)%Z then
        let* anchors := qsa pg RESULT_LINK_SELECTOR in
        let* found := gather pg anchors found in
        let* album := qs pg ALBUM_LINK_SELECTOR in
        let* hit := match album with
                    | Some el =>
                        let* href := attr pg el "href" in
                        match href with
                        | Some h => if truthy href then ret (Some (set_add h found))
                                    else ret None
                        | None => ret None
                        end
                    | None => ret None
                    end in
        match hit with
        | Some l => ret l
        | None =>
            match found with
            | _ :: _ => perform pg (Wait 2000);; ret found
            | [] => perform pg (Wait STEP);;
                    poll pg timeout_ms fuel' (elapsed + STEP)%Z found
            end
        end
      else ret found
  end.

(** [elapsed] grows by [STEP] each round, so the loop makes at most
    [timeout_ms / STEP + 1] rounds; the fuel is never the reason it stops. *)
Definition collect_result_links (pg : Page) (timeout_ms : Z) : M (list string) :=
  poll pg timeout_ms (S (Z.to_nat (timeout_ms / STEP)%Z)) 0 [].

(** ** upload_files *)

(** The dedupe loop at the end of upload_files. *)
Definition dedup (results : list string) : list string :=
  fold_left (fun deduped l =>
               if existsb (String.eqb l) deduped then deduped else deduped ++ [l])
            results [].

Fixpoint upload_sequential (pg : Page) (el : elem) (album_title : option string)
         (n : nat) (i : nat) (fs : list string) (results : list string)
  : M (list string) :=
  match fs with
  | [] => ret results
  | f :: rest =>
      print (MsgUploadingOne i n f);;
      perform pg (SetFiles el [f]);;
      (match album_title with
       | Some t => if truthy album_title && Nat.eqb i 1
                   then fill_album_title pg t else ret tt
       | None => ret tt
       end);;
      let* _ := click_upload pg in
      let* links := collect_result_links pg 60000 in
      perform pg (Goto URL);;
      upload_sequential pg el album_title n (S i) rest (results ++ links)
  end.

Definition upload_files (pg : Page) (avif_files : list string)
           (album_title : option string) (headful : bool) : M (list string) :=
  perform pg (Launch (negb headful));;
  perform pg NewPage;;
  perform pg (Goto URL);;
  let* fi := find_file_input pg in
  match fi with
  | None =>
      print MsgNoFileInput;;
      perform pg Close;;
      ret []
  | Some (file_input, used_sel) =>
      let* supports_multiple := multiple pg file_input in
      (if supports_multiple then ret tt else print MsgNoMultiple);;
      let* results :=
        if supports_multiple then
          print (MsgUploadingAll (List.length avif_files) used_sel);;
          perform pg (SetFiles file_input avif_files);;
          (match album_title with
           | Some t => if truthy album_title then fill_album_title pg t else ret tt
           | None => ret tt
           end);;
          let* clicked := click_upload pg in
          (if clicked then ret tt else print MsgNoButton);;
          let* links := collect_result_links pg 120000 in
          ret links
        else
          upload_sequential pg file_input album_title (List.length avif_files) 1
                            avif_files []
      in
      perform pg Close;;
      ret (dedup results)
  end.

(** ** Python slices and ranges *)

(** Normalisation of a slice bound against a sequence of length [n]. *)
Definition slice_bound (n x : Z) : Z :=
  if (x <? 0)%Z then Z.max 0 (n + x) else Z.min x n.

(** [l[lo:hi]] *)
Definition py_slice {A} (l : list A) (lo hi : Z) : list A :=
  let n := Z.of_nat (List.length l) in
  let a := slice_bound n lo in
  let b := slice_bound n hi in
  firstn (Z.to_nat (b - a)) (skipn (Z.to_nat a) l).

Fixpoint range_up (fuel : nat) (i stop step : Z) : list Z :=
  match fuel with
  | O => []
  | S f => if (i <? stop)%Z then i :: range_up f (i + step)%Z stop step else []
  end.

Fixpoint range_down (fuel : nat) (i stop step : Z) : list Z :=
  match fuel with
  | O => []
  | S f => if (stop <? i)%Z then i :: range_down f (i + step)%Z stop step else []
  end.

(** [range(start, stop, step)]: the value moves by at least one each
    time, so [|stop - start|] rounds of fuel always suffice. *)
Definition py_range (start stop step : Z) : res (list Z) :=
  if (step =? 0)%Z then Exc (ValueError "range() arg 3 must not be zero")
  else if (0 <? step)%Z then Ok (range_up (Z.to_nat (stop - start)) start stop step)
  else Ok (range_down (Z.to_nat (start - stop)) start stop step).

(** ** The file system and collect_avif_files *)

(** What is found at a path: a file, or a directory with named entries. *)
#[warnings="-register-all"]
Inductive node : Type :=
| File
| Dir (entries : list (string * node)).

Definition FS := string -> option node.

(** [str(Path(p) / name)] for a [base_dir] already in the normal form that
    [Path] gives it: not [.], without a trailing slash or a leading [./].
    For other spellings Python normalises the base first ([--dir .] gives
    bare names), which this join does not. *)
Definition join (p name : string) : string := (p ++ "/" ++ name)%string.

Fixpoint ends_with (suf s : string) : bool :=
  String.eqb s suf ||
  match s with
  | EmptyString => false
  | String _ rest => ends_with suf rest
  end.

(** The name pattern "*.avif" (the star matches any name, dot files too;
    matching is case sensitive, as on POSIX). *)
Definition matches_avif (name : string) : bool := ends_with ".avif" name.

(** [Path.rglob("*.avif")]: every entry below the directory, at any depth,
    whose name matches, whatever its kind; a file has no entries. *)
Fixpoint rglob (prefix : string) (n : node) : list string :=
  match n with
  | File => []
  | Dir es =>
      (fix go (es : list (string * node)) : list string :=
         match es with
         | [] => []
         | (nm, c) :: rest =>
             (if matches_avif nm then [join prefix nm] else [])
             ++ rglob (join prefix nm) c ++ go rest
         end) es
  end.

(** [sorted] on str: Python compares strings by code point, which is the
    byte order of their UTF-8 encodings.  Insertion sort gives the one
    sorted permutation that [sorted] returns. *)
Fixpoint insert_sorted (x : string) (l : list string) : list string :=
  match l with
  | [] => [x]
  | y :: rest => if String.leb x y then x :: l else y :: insert_sorted x rest
  end.

Definition sorted (l : list string) : list string := fold_right insert_sorted [] l.

Definition collect_avif_files (fs : FS) (base_dir : string) : res (list string) :=
  match fs base_dir with
  | None => Exc (SystemExit ("Directory not found: " ++ base_dir))
  | Some n => Ok (sorted (rglob base_dir n))
  end.

(** ** main *)

(** The arguments as [ap.parse_args()] returns them; parsing itself (its
    SystemExit for a missing --dir or a --batch-size that is not an
    integer) is not modelled, and [main] starts after it. *)
Record Args : Type := {
  dir : string;
  album : option string;
  headful : bool;
  open_ : bool;            (* --open *)
  batch_size : Z
}.

(** Messages printed by [main] and [open_in_host_browser]. *)
Inductive mmessage : Type :=
| MsgNoFiles (d : string)            (* "No .avif files found under" *)
| MsgFound (n : nat)                 (* "Found N .avif files." *)
| MsgProduced                        (* "Upload produced the following link(s):" *)
| MsgLink (l : string)               (* " -", l *)
| MsgFallback                        (* "No album link found for single upload; ..." *)
| MsgBatch (k : Z) (n : nat)         (* "Uploading batch k (n files)..." *)
| MsgCollected                       (* "Collected links:" *)
| MsgNoLinks                         (* "No links produced. ..." *)
| MsgSetBrowser.                     (* "Set $BROWSER to a command ..." *)

Inductive mevent : Type :=
| MPrint (m : mmessage)
| MUpload (fs : list string) (album_title : option string) (headful : bool)
| MSystem (cmd : string).

Definition MM (A : Type) : Type := St mevent A.

(** [asyncio.run(upload_files(...))]: the outcome of a whole browser
    session, given the history of main so far and the call's arguments. *)
Definition Uploader : Type :=
  list mevent -> list string -> option string -> bool -> res (list string).

Definition lift {E A} (r : res A) : St E A := fun tr => (r, tr).

Definition mprint (m : mmessage) : MM unit := fun tr => (Ok tt, tr ++ [MPrint m]).

Definition call_upload (up : Uploader) (fs : list string) (album_title : option string)
           (hf : bool) : MM (list string) :=
  fun tr => (up tr fs album_title hf, tr ++ [MUpload fs album_title hf]).

Definition system (cmd : string) : MM unit := fun tr => (Ok tt, tr ++ [MSystem cmd]).

(** [f'{browser_cmd} "{url}"'] *)
Definition browser_command (cmd url : string) : string := (cmd ++ " " ++ quoted url)%string.

(** [os.environ.get("BROWSER")], with its truthiness. *)
Definition browser_cmd (env_browser : option string) : option string :=
  if truthy env_browser then env_browser else None.

Definition open_in_host_browser (env_browser : option string) (url : string) : MM unit :=
  match browser_cmd env_browser with
  | None => mprint MsgSetBrowser
  | Some cmd => system (browser_command cmd url)
  end.

Fixpoint print_links (ls : list string) : MM unit :=
  match ls with
  | [] => ret tt
  | l :: rest => mprint (MsgLink l);; print_links rest
  end.

Definition first_or_empty (ls : list string) : string := hd EmptyString ls.

(** [files[i : i + batch_size]] *)
Definition batch_of (files : list string) (bs i : Z) : list string :=
  py_slice files i (i + bs)%Z.

(** The fallback loop [for i in range(0, len(files), args.batch_size)]. *)
Fixpoint batch_loop (args : Args) (env_browser : option string) (up : Uploader)
         (files : list string) (is : list Z) (all_links : list string)
  : MM (list string) :=
  match is with
  | [] => ret all_links
  | i :: rest =>
      let batch := batch_of files (batch_size args) i in
      mprint (MsgBatch (i / batch_size args + 1)%Z (List.length batch));;
      let* links := call_upload up batch
                      (if (i =? 0)%Z then album args else None) (headful args) in
      (if open_ args && negb (List.length links =? 0)%nat
       then open_in_host_browser env_browser (first_or_empty links)
       else ret tt);;
      batch_loop args env_browser up files rest (all_links ++ links)
  end.

Definition main (args : Args) (env_browser : option string) (fs : FS)
           (up : Uploader) : res unit * list mevent :=
  (let* files := lift (collect_avif_files fs (dir args)) in
   match files with
   | [] => mprint (MsgNoFiles (dir args))
   | _ :: _ =>
       mprint (MsgFound (List.length files));;
       let batch := py_slice files 0 (batch_size args) in
       let* links := call_upload up batch (album args) (headful args) in
       match links with
       | _ :: _ =>
           mprint MsgProduced;;
           print_links links;;
           (if open_ args then open_in_host_browser env_browser (first_or_empty links)
            else ret tt)
       | [] =>
           mprint MsgFallback;;
           let* is := lift (py_range 0 (Z.of_nat (List.length files)) (batch_size args)) in
           let* all_links := batch_loop args env_browser up files is [] in
           match all_links with
           | _ :: _ => mprint MsgCollected;; print_links all_links
           | [] => mprint MsgNoLinks
           end
       end
   end) [].

(** ** Observing main's trace *)

Definition is_fallback (e : mevent) : bool :=
  match e with MPrint MsgFallback => true | _ => false end.

(** The events after the message that starts the fallback loop. *)
Fixpoint after_fallback (tr : list mevent) : list mevent :=
  match tr with
  | [] => []
  | e :: rest => if is_fallback e then rest else after_fallback rest
  end.

(** The file lists and album titles of the calls of upload_files. *)
Fixpoint uploads (tr : list mevent) : list (list string) :=
  match tr with
  | [] => []
  | MUpload fs _ _ :: rest => fs :: uploads rest
  | _ :: rest => uploads rest
  end.

Fixpoint upload_albums (tr : list mevent) : list (option string) :=
  match tr with
  | [] => []
  | MUpload _ a _ :: rest => a :: upload_albums rest
  | _ :: rest => upload_albums rest
  end.

(** The first shell command run, and the first link printed. *)
Fixpoint first_system (tr : list mevent) : option string :=
  match tr with
  | [] => None
  | MSystem c :: _ => Some c
  | _ :: rest => first_system rest
  end.

Fixpoint first_link (tr : list mevent) : option string :=
  match tr with
  | [] => None
  | MPrint (MsgLink l) :: _ => Some l
  | _ :: rest => first_link rest
  end.

(** The events that [if args.open and links: open_in_host_browser(links[0])]
    adds. *)
Definition open_events (args : Args) (env_browser : option string)
           (links : list string) : list mevent :=
  if open_ args && negb (List.length links =? 0)%nat then
    match browser_cmd env_browser with
    | None => [MPrint MsgSetBrowser]
    | Some cmd => [MSystem (browser_command cmd (first_or_empty links))]
    end
  else [].

Section LoopShape.
Variable args : Args.
Variable env_browser : option string.
Variable up : Uploader.
Variable files : list string.

Definition batch_message (i : Z) : mevent :=
  MPrint (MsgBatch (i / batch_size args + 1)%Z
                   (List.length (batch_of files (batch_size args) i))).

Definition batch_album (i : Z) : option string :=
  if (i =? 0)%Z then album args else None.

(** The runs of the fallback loop from a trace: the events each round
    adds, what the calls of upload_files answered, and the outcome. *)
Inductive loop_shape : list mevent -> list Z -> list string -> list mevent ->
                       res (list string) -> Prop :=
| shape_done tr acc : loop_shape tr [] acc [] (Ok acc)
| shape_raise tr i is acc e :
    up (tr ++ [batch_message i]) (batch_of files (batch_size args) i)
       (batch_album i) (headful args) = Exc e ->
    loop_shape tr (i :: is) acc
      [batch_message i; MUpload (batch_of files (batch_size args) i)
                                (batch_album i) (headful args)] (Exc e)
| shape_round tr i is acc links ev r :
    up (tr ++ [batch_message i]) (batch_of files (batch_size args) i)
       (batch_album i) (headful args) = Ok links ->
    loop_shape (tr ++ [batch_message i;
                       MUpload (batch_of files (batch_size args) i)
                               (batch_album i) (headful args)]
                   ++ open_events args env_browser links)
               is (acc ++ links) ev r ->
    loop_shape tr (i :: is) acc
      ([batch_message i; MUpload (batch_of files (batch_size args) i)
                                 (batch_album i) (headful args)]
       ++ open_events args env_browser links ++ ev) r.
End LoopShape.

(** A computation of main that only adds events satisfying [P]. *)
Definition grows {A} (P : mevent -> Prop) (m : MM A) : Prop :=
  forall tr r tr', m tr = (r, tr') -> exists ev, tr' = tr ++ ev /\ Forall P ev.

(** ** What the poll loop waits for *)

(** A round of the poll loop in which the page shows no link: the result
    anchors have no link-shaped href (reading one may raise, which is
    swallowed), no album anchor with a non-empty href is there, nothing
    unguarded raises and the wait succeeds. *)
Definition round_quiet (pg : Page) (tr : trace) : Prop :=
  (exists anchors,
     query_selector_all pg tr RESULT_LINK_SELECTOR = Ok anchors /\
     Forall (fun a => forall h, get_attribute pg tr a "href" = Ok (Some h) ->
                                is_link h = false) anchors) /\
  (query_selector pg tr ALBUM_LINK_SELECTOR = Ok None \/
   exists el, query_selector pg tr ALBUM_LINK_SELECTOR = Ok (Some el) /\
     (get_attribute pg tr el "href" = Ok None \/
      get_attribute pg tr el "href" = Ok (Some EmptyString))) /\
  act pg tr (Wait STEP) = Ok tt.

(** A string the page gave as the non-empty href of one of its elements. *)
Definition href_from_page (pg : Page) (h : string) : Prop :=
  h <> EmptyString /\ exists tr el, get_attribute pg tr el "href" = Ok (Some h).

(** ** Sample pages *)

(** A page on which nothing is found and every action succeeds. *)
Definition quiet_page : Page := {|
  query_selector := fun _ _ => Ok None;
  query_selector_all := fun _ _ => Ok [];
  get_attribute := fun _ _ _ => Ok None;
  is_multiple := fun _ _ => Ok true;
  act := fun _ _ => Ok tt
|}.

(** A page whose [query_selector_all] raises, e.g. once the page crashed. *)
Definition crashed_page : Page := {|
  query_selector := fun _ _ => Ok None;
  query_selector_all := fun _ _ => Exc (Error "Target page, context or browser has been closed");
  get_attribute := fun _ _ _ => Ok None;
  is_multiple := fun _ _ => Ok true;
  act := fun _ _ => Ok tt
|}.

(** A run of main on the directory [photos] with three files, batches of
    one, and an uploader that gives nothing for the first attempt and one
    link per later call. *)
Definition photos_fs : FS :=
  fun p => if String.eqb p "photos"
           then Some (Dir [("c.avif", File); ("a.avif", File); ("b.avif", File)])
           else None.

Definition link_uploader : Uploader :=
  fun tr fs _ _ => match tr with
                   | [_] => Ok []
                   | _ => Ok (map (fun f => ("https://postimg.cc/" ++ f)%string) fs)
                   end.

Definition photos_args (bs : Z) (o : bool) : Args :=
  {| dir := "photos"; album := Some "Quiz"; headful := false; open_ := o;
     batch_size := bs |}.

(** Every shell command main runs, in order. *)
Fixpoint systems (tr : list mevent) : list string :=
  match tr with
  | [] => []
  | MSystem c :: rest => c :: systems rest
  | _ :: rest => systems rest
  end.

(** A directory holding a file [cover.avif] and a subdirectory whose
    name, [old.avif], also matches the pattern. *)
Definition avif_dir_fs : FS :=
  fun p => if String.eqb p "photos"
           then Some (Dir [("cover.avif", File);
                           ("old.avif", Dir [("x.avif", File)])])
           else None.

(** ** Observing a browser session *)

(** The events a computation adds to the trace all satisfy [P]. *)
Definition adds {E A} (P : E -> Prop) (m : St E A) : Prop :=
  forall tr r tr', m tr = (r, tr') -> exists ev, tr' = tr ++ ev /\ Forall P ev.

Definition is_wait (e : event) : Prop :=
  match e with Wait _ => True | _ => False end.

(** The file lists set on the file input, and the texts filled in. *)
Fixpoint setfiles (tr : trace) : list (list string) :=
  match tr with
  | [] => []
  | SetFiles _ fs :: rest => fs :: setfiles rest
  | _ :: rest => setfiles rest
  end.

Fixpoint fills (tr : trace) : list string :=
  match tr with
  | [] => []
  | Fill _ s :: rest => s :: fills rest
  | _ :: rest => fills rest
  end.

(** A lookup of [sel] that finds nothing or raises. *)
Definition lookup_fails (pg : Page) (tr : trace) (sel : string) : Prop :=
  query_selector pg tr sel = Ok None \/ exists x, query_selector pg tr sel = Exc x.

(** A page on which every selector finds element 0, whose href is an
    album link; [mult] tells whether the file input takes many files. *)
Definition album_page (mult : bool) : Page := {|
  query_selector := fun _ _ => Ok (Some 0%nat);
  query_selector_all := fun _ _ => Ok [];
  get_attribute := fun _ _ _ => Ok (Some "https://postimg.cc/gallery/quiz");
  is_multiple := fun _ _ => Ok mult;
  act := fun _ _ => Ok tt
|}.

(** The links main prints, in order. *)
Fixpoint printed_links (tr : list mevent) : list string :=
  match tr with
  | [] => []
  | MPrint (MsgLink l) :: rest => l :: printed_links rest
  | _ :: rest => printed_links rest
  end.

(** A result page that shows an album anchor from the start; its href is
    still empty in the first round, and once the loop has waited the
    element is detached, so reading its href raises. *)
Definition detached_album_page : Page := {|
  query_selector := fun _ _ => Ok (Some 0%nat);
  query_selector_all := fun _ _ => Ok [];
  get_attribute := fun tr _ _ => match tr with
                                 | [] => Ok (Some EmptyString)
                                 | _ => Exc (Error "Element is not attached to the DOM")
                                 end;
  is_multiple := fun _ _ => Ok true;
  act := fun _ _ => Ok tt
|}.

(** The event [open_in_host_browser(links[0])] adds: the $BROWSER command
    on the first link, or the hint when $BROWSER is unset or empty. *)
Definition open_event (env_browser : option string) (links : list string) : mevent :=
  match browser_cmd env_browser with
  | None => MPrint MsgSetBrowser
  | Some cmd => MSystem (browser_command cmd (first_or_empty links))
  end.

(** * Properties *)

(** ** The monad *)

Lemma bind_ok_inv {E A B} (m : St E A) (k : A -> St E B) tr v tr' :
  bind m k tr = (Ok v, tr') ->
  exists a tr1, m tr = (Ok a, tr1) /\ k a tr1 = (Ok v, tr').
Proof.
  unfold bind. destruct (m tr) as [[a|e] tr1]; intros H.
  - exists a, tr1. split; [reflexivity | exact H].
  - discriminate H.
Qed.

Ltac inv_bind H :=
  let a := fresh "a" in
  let t := fresh "t" in
  let Hm := fresh "Hm" in
  let Hk := fresh "Hk" in
  destruct (bind_ok_inv _ _ _ _ _ H) as (a & t & Hm & Hk);
  clear H; rename Hk into H; cbv beta in H.

(** ** The dedupe loop *)

Lemma existsb_eqb_In (x : string) (l : list string) :
  existsb (String.eqb x) l = true <-> In x l.
Proof.
  rewrite existsb_exists. split.
  - intros (y & Hy & E). apply String.eqb_eq in E. subst. exact Hy.
  - intros H. exists x. split; [exact H | apply String.eqb_refl].
Qed.

Lemma dedup_snoc (l : list string) (x : string) :
  dedup (l ++ [x]) =
  if existsb (String.eqb x) (dedup l) then dedup l else dedup l ++ [x].
Proof. unfold dedup. rewrite fold_left_app. reflexivity. Qed.

Lemma dedup_In (l : list string) (x : string) : In x (dedup l) <-> In x l.
Proof.
  revert x. induction l as [|y l IH] using rev_ind; intros x.
  - reflexivity.
  - rewrite dedup_snoc, in_app_iff. simpl.
    destruct (existsb (String.eqb y) (dedup l)) eqn:E.
    + apply existsb_eqb_In in E. rewrite IH in E |- *.
      split; [tauto|]. intros [H|[H|[]]]; [exact H | subst; exact E].
    + rewrite in_app_iff, IH. simpl. tauto.
Qed.

Lemma dedup_NoDup (l : list string) : NoDup (dedup l).
Proof.
  induction l as [|y l IH] using rev_ind.
  - constructor.
  - rewrite dedup_snoc. destruct (existsb (String.eqb y) (dedup l)) eqn:E.
    + exact IH.
    + apply NoDup_app; [exact IH | repeat constructor; simpl; tauto |].
      intros z Hz [Hz'|[]]. subst z.
      apply existsb_eqb_In in Hz. congruence.
Qed.

(** Position of the first occurrence of [x] in [l] ([length l] if none). *)
Fixpoint first_index (x : string) (l : list string) : nat :=
  match l with
  | [] => 0
  | y :: rest => if String.eqb x y then 0 else S (first_index x rest)
  end.

Lemma first_index_app (x : string) (l r : list string) :
  In x l -> first_index x (l ++ r) = first_index x l.
Proof.
  induction l as [|y l IH]; simpl; [tauto|].
  destruct (String.eqb x y) eqn:E; [reflexivity|].
  intros [H|H]; [subst; rewrite String.eqb_refl in E; discriminate|].
  f_equal. apply IH, H.
Qed.

Lemma first_index_lt (x : string) (l : list string) :
  In x l -> first_index x l < List.length l.
Proof.
  induction l as [|y l IH]; simpl; [tauto|].
  destruct (String.eqb x y) eqn:E; [lia|].
  intros [H|H]; [subst; rewrite String.eqb_refl in E; discriminate|].
  specialize (IH H). lia.
Qed.

Lemma first_index_app_absent (x : string) (l r : list string) :
  ~ In x l -> first_index x (l ++ r) = List.length l + first_index x r.
Proof.
  induction l as [|y l IH]; simpl; [reflexivity|].
  intros H. destruct (String.eqb x y) eqn:E.
  - apply String.eqb_eq in E. subst. tauto.
  - f_equal. apply IH. tauto.
Qed.

Lemma dedup_order (l : list string) i j x y :
  i < j -> nth_error (dedup l) i = Some x -> nth_error (dedup l) j = Some y ->
  first_index x l < first_index y l.
Proof.
  revert i j x y.
  induction l as [|z l IH] using rev_ind; intros i j x y Hij Hi Hj.
  - destruct i; discriminate Hi.
  - rewrite dedup_snoc in Hi, Hj.
    destruct (existsb (String.eqb z) (dedup l)) eqn:E.
    + assert (Hx : In x l) by (apply dedup_In, (nth_error_In _ i), Hi).
      assert (Hy : In y l) by (apply dedup_In, (nth_error_In _ j), Hj).
      rewrite !first_index_app by assumption.
      exact (IH i j x y Hij Hi Hj).
    + assert (Hz : ~ In z l).
      { rewrite <- (dedup_In l z), <- existsb_eqb_In. congruence. }
      assert (Hil : i < List.length (dedup l)).
      { destruct (Nat.lt_ge_cases i (List.length (dedup l))) as [H|H]; [exact H|].
        rewrite nth_error_app2 in Hj by lia.
        destruct (j - List.length (dedup l)) as [|[|k]] eqn:D; simpl in Hj;
          try discriminate; lia. }
      rewrite nth_error_app1 in Hi by exact Hil.
      assert (Hx : In x l) by (apply dedup_In, (nth_error_In _ i), Hi).
      rewrite first_index_app by exact Hx.
      destruct (Nat.lt_ge_cases j (List.length (dedup l))) as [Hjl|Hjl].
      * rewrite nth_error_app1 in Hj by exact Hjl.
        assert (Hy : In y l) by (apply dedup_In, (nth_error_In _ j), Hj).
        rewrite first_index_app by exact Hy.
        exact (IH i j x y Hij Hi Hj).
      * rewrite nth_error_app2 in Hj by exact Hjl.
        destruct (j - List.length (dedup l)) as [|k]; simpl in Hj;
          [|destruct k; discriminate].
        injection Hj as <-.
        rewrite first_index_app_absent by exact Hz.
        pose proof (first_index_lt x l Hx). lia.
Qed.

Lemma ret_ok_inv {E A} (a v : A) (tr tr' : list E) :
  ret a tr = (Ok v, tr') -> v = a /\ tr' = tr.
Proof. unfold ret. intros H. injection H as -> ->. split; reflexivity. Qed.

(** What upload_files returns, when it returns, is [[]] (no file input) or
    the dedupe of the collected links. *)
Lemma upload_files_result pg fs a h tr l tr' :
  upload_files pg fs a h tr = (Ok l, tr') -> l = [] \/ exists rs, l = dedup rs.
Proof.
  unfold upload_files. intros H.
  inv_bind H. inv_bind H. inv_bind H. inv_bind H.
  destruct a3 as [[el sel]|]; cbv beta iota in H.
  - inv_bind H. inv_bind H. inv_bind H. inv_bind H.
    apply ret_ok_inv in H. right. exists a5. apply H.
  - inv_bind H. inv_bind H. apply ret_ok_inv in H. left. apply H.
Qed.

(** ** Probing for the file input *)

Lemma find_file_input_in_none pg sels tr :
  (forall sel, In sel sels ->
     query_selector pg tr sel = Ok None \/ exists e, query_selector pg tr sel = Exc e) ->
  find_file_input_in pg sels tr = (Ok None, tr).
Proof.
  induction sels as [|sel sels IH]; intros Hnone; [reflexivity|].
  cbn [find_file_input_in]. unfold bind, try_, qs, ret.
  destruct (Hnone sel (or_introl eq_refl)) as [E|[e E]]; rewrite E;
    apply IH; intros s Hs; apply Hnone; right; exact Hs.
Qed.

Lemma bind_step {E A B} (m : St E A) (k : A -> St E B) tr a tr1 :
  m tr = (Ok a, tr1) -> bind m k tr = k a tr1.
Proof. unfold bind. intros ->. reflexivity. Qed.

Lemma perform_ok pg ev tr :
  act pg tr ev = Ok tt -> perform pg ev tr = (Ok tt, tr ++ [ev]).
Proof. unfold perform. intros ->. reflexivity. Qed.

(** ** The guarded probes never raise *)

Lemma try_ok {E A} (m h : St E A) tr :
  (forall tr', exists v tr'', h tr' = (Ok v, tr'')) ->
  exists v tr', try_ m h tr = (Ok v, tr').
Proof.
  intros Hh. unfold try_. destruct (m tr) as [[a|e] tr1].
  - exists a, tr1. reflexivity.
  - apply Hh.
Qed.

Ltac step_try :=
  match goal with
  | |- context [bind (try_ ?m ?h) ?k ?tr] =>
      let v := fresh "v" in
      let t := fresh "t" in
      let E := fresh "E" in
      destruct (try_ok m h tr ltac:(intros; eexists _, _; reflexivity)) as (v & t & E);
      rewrite (bind_step _ k _ _ _ E); cbv beta
  end.

Lemma find_file_input_in_ok pg sels tr :
  exists v tr', find_file_input_in pg sels tr = (Ok v, tr').
Proof.
  revert tr. induction sels as [|sel sels IH]; intros tr.
  - eexists _, _. reflexivity.
  - cbn [find_file_input_in]. step_try.
    destruct v; [eexists _, _; reflexivity | apply IH].
Qed.

Lemma click_upload_in_ok pg sels tr :
  exists v tr', click_upload_in pg sels tr = (Ok v, tr').
Proof.
  revert tr. induction sels as [|sel sels IH]; intros tr.
  - apply try_ok. intros; eexists _, _; reflexivity.
  - cbn [click_upload_in]. step_try.
    destruct v; [eexists _, _; reflexivity | apply IH].
Qed.

Lemma fill_album_title_in_ok pg title sels tr :
  exists v tr', fill_album_title_in pg title sels tr = (Ok v, tr').
Proof.
  revert tr. induction sels as [|sel sels IH]; intros tr.
  - eexists _, _. reflexivity.
  - cbn [fill_album_title_in]. step_try.
    destruct v; [eexists _, _; reflexivity | apply IH].
Qed.

Lemma gather_ok pg anchors found tr :
  exists v tr', gather pg anchors found tr = (Ok v, tr').
Proof.
  revert found tr. induction anchors as [|a anchors IH]; intros found tr.
  - eexists _, _. reflexivity.
  - cbn [gather]. step_try. apply IH.
Qed.

(** The first round of the poll loop runs when the timeout is positive. *)
Lemma collect_first_round pg T tr :
  (0 < T)%Z ->
  collect_result_links pg T tr =
  (let* anchors := qsa pg RESULT_LINK_SELECTOR in
   let* found := gather pg anchors [] in
   let* album := qs pg ALBUM_LINK_SELECTOR in
   let* hit := match album with
               | Some el =>
                   let* href := attr pg el "href" in
                   match href with
                   | Some h => if truthy href then ret (Some (set_add h found))
                               else ret None
                   | None => ret None
                   end
               | None => ret None
               end in
   match hit with
   | Some l => ret l
   | None =>
       match found with
       | _ :: _ => perform pg (Wait 2000);; ret found
       | [] => perform pg (Wait STEP);;
               poll pg T (Z.to_nat (T / STEP)) (0 + STEP)%Z found
       end
   end) tr.
Proof.
  intros HT. unfold collect_result_links. cbn [poll].
  replace (0 <? T)%Z with true by (symmetry; apply Z.ltb_lt; exact HT).
  reflexivity.
Qed.

Lemma bind_exc {E A B} (m : St E A) (k : A -> St E B) tr e tr1 :
  m tr = (Exc e, tr1) -> bind m k tr = (Exc e, tr1).
Proof. unfold bind. intros ->. reflexivity. Qed.

(** ** The poll loop *)

Lemma gather_quiet pg anchors found tr :
  Forall (fun a => forall h, get_attribute pg tr a "href" = Ok (Some h) ->
                             is_link h = false) anchors ->
  gather pg anchors found tr = (Ok found, tr).
Proof.
  revert found. induction anchors as [|a anchors IH]; intros found Hall;
    [reflexivity|].
  inversion Hall as [|? ? Ha Hrest]; subst.
  cbn [gather].
  erewrite bind_step.
  2:{ unfold try_, bind, attr.
      destruct (get_attribute pg tr a "href") as [[h|]|e] eqn:E.
      - rewrite (Ha h eq_refl), andb_false_r. reflexivity.
      - reflexivity.
      - reflexivity. }
  apply IH, Hrest.
Qed.

Lemma ceil_step_succ (x : Z) :
  (0 < x)%Z -> ((x + STEP - 1) / STEP = (x - 1) / STEP + 1)%Z /\ (0 <= (x - 1) / STEP)%Z.
Proof.
  unfold STEP. intros Hx. split.
  - replace (x + 2000 - 1)%Z with (x - 1 + 1 * 2000)%Z by lia.
    rewrite Z.div_add by lia. reflexivity.
  - apply Z.div_pos; lia.
Qed.

Lemma ceil_step_nonpos (x : Z) : (x <= 0)%Z -> ((x + STEP - 1) / STEP <= 0)%Z.
Proof.
  unfold STEP. intros Hx.
  assert ((x + 2000 - 1) / 2000 < 1)%Z by (apply Z.div_lt_upper_bound; lia).
  lia.
Qed.

Lemma poll_quiet pg T fuel e tr :
  (forall tr0, round_quiet pg tr0) ->
  (Z.to_nat ((T - e + STEP - 1) / STEP) <= fuel)%nat ->
  poll pg T fuel e [] tr =
  (Ok [], tr ++ repeat (Wait STEP) (Z.to_nat ((T - e + STEP - 1) / STEP))).
Proof.
  intros Hq. revert e tr. induction fuel as [|fuel IH]; intros e tr Hf.
  - replace (Z.to_nat ((T - e + STEP - 1) / STEP)) with 0%nat by lia.
    rewrite app_nil_r. reflexivity.
  - cbn [poll]. destruct (e <? T)%Z eqn:ET.
    + apply Z.ltb_lt in ET.
      destruct (ceil_step_succ (T - e) ltac:(lia)) as [Hc Hp].
      rewrite Hc in Hf |- *. rewrite Z2Nat.inj_add in Hf |- * by lia.
      change (Z.to_nat 1) with 1%nat in *.
      destruct (Hq tr) as [(anchors & Ea & Hall) [Halb Hw]].
      erewrite bind_step by (unfold qsa; rewrite Ea; reflexivity).
      erewrite bind_step by (apply gather_quiet, Hall).
      destruct Halb as [Eal | (el & Eal & Eh)].
      * erewrite bind_step by (unfold qs; rewrite Eal; reflexivity).
        erewrite bind_step by reflexivity.
        cbv beta iota.
        erewrite bind_step by (apply perform_ok, Hw).
        rewrite IH.
        -- replace (T - (e + STEP))%Z with (T - e - STEP)%Z by lia.
           replace (T - e - STEP + STEP - 1)%Z with (T - e - 1)%Z by lia.
           rewrite <- app_assoc. simpl. rewrite Nat.add_1_r. reflexivity.
        -- replace (T - (e + STEP) + STEP - 1)%Z with (T - e - 1)%Z by lia. lia.
      * erewrite bind_step by (unfold qs; rewrite Eal; reflexivity).
        erewrite bind_step.
        2:{ unfold bind, attr. destruct Eh as [Eh|Eh]; rewrite Eh; reflexivity. }
        cbv beta iota.
        erewrite bind_step by (apply perform_ok, Hw).
        rewrite IH.
        -- replace (T - (e + STEP))%Z with (T - e - STEP)%Z by lia.
           replace (T - e - STEP + STEP - 1)%Z with (T - e - 1)%Z by lia.
           rewrite <- app_assoc. simpl. rewrite Nat.add_1_r. reflexivity.
        -- replace (T - (e + STEP) + STEP - 1)%Z with (T - e - 1)%Z by lia. lia.
    + apply Z.ltb_ge in ET.
      pose proof (ceil_step_nonpos (T - e) ltac:(lia)) as Hc.
      replace (Z.to_nat ((T - e + STEP - 1) / STEP)) with 0%nat by lia.
      rewrite app_nil_r. reflexivity.
Qed.

Lemma set_add_Forall (P : string -> Prop) h found :
  P h -> Forall P found -> Forall P (set_add h found).
Proof.
  intros Hh Hf. unfold set_add. destruct (existsb _ found); [exact Hf|].
  apply Forall_app. split; [exact Hf | constructor; [exact Hh | constructor]].
Qed.

Lemma truthy_nonempty h : truthy (Some h) = true -> h <> EmptyString.
Proof. destruct h; simpl; congruence. Qed.

Lemma gather_hrefs pg anchors found tr v tr' :
  gather pg anchors found tr = (Ok v, tr') ->
  Forall (href_from_page pg) found -> Forall (href_from_page pg) v.
Proof.
  revert found tr. induction anchors as [|a anchors IH]; intros found tr H Hf.
  - apply ret_ok_inv in H as [-> _]. exact Hf.
  - cbn [gather] in H. inv_bind H. apply (IH _ _ H).
    unfold try_, bind, attr in Hm.
    destruct (get_attribute pg tr a "href") as [[h|]|e] eqn:E.
    + destruct (truthy (Some h) && is_link h) eqn:B; injection Hm as <- _;
        [|exact Hf].
      apply andb_prop in B as [B _].
      apply set_add_Forall; [|exact Hf].
      split; [apply truthy_nonempty, B | exists tr, a; exact E].
    + injection Hm as <- _. exact Hf.
    + injection Hm as <- _. exact Hf.
Qed.

Lemma poll_hrefs pg T fuel e found tr v tr' :
  poll pg T fuel e found tr = (Ok v, tr') ->
  Forall (href_from_page pg) found -> Forall (href_from_page pg) v.
Proof.
  revert e found tr. induction fuel as [|fuel IH]; intros e found tr H Hf.
  - apply ret_ok_inv in H as [-> _]. exact Hf.
  - cbn [poll] in H. destruct (e <? T)%Z.
    2:{ apply ret_ok_inv in H as [-> _]. exact Hf. }
    inv_bind H. inv_bind H. inv_bind H. inv_bind H.
    pose proof (gather_hrefs _ _ _ _ _ _ Hm0 Hf) as Hg.
    destruct a2 as [l|]; cbv beta iota in H.
    + apply ret_ok_inv in H as [-> _].
      destruct a1 as [el|]; cbv beta iota in Hm2.
      2:{ apply ret_ok_inv in Hm2 as [E _]. discriminate E. }
      inv_bind Hm2. unfold attr in Hm3. injection Hm3 as E _.
      destruct a1 as [h|]; cbv beta iota in Hm2.
      2:{ apply ret_ok_inv in Hm2 as [E' _]. discriminate E'. }
      destruct (truthy (Some h)) eqn:B; apply ret_ok_inv in Hm2 as [E' _];
        [|discriminate E'].
      injection E' as E'; subst l.
      apply set_add_Forall; [|exact Hg].
      split; [apply truthy_nonempty, B | exists t1, el; exact E].
    + destruct a0 as [|x xs].
      * inv_bind H. exact (IH _ _ _ H Hg).
      * inv_bind H. apply ret_ok_inv in H as [-> _]. exact Hg.
Qed.

(** ** Slices and ranges *)

Lemma py_range_pos n bs :
  (0 < bs)%Z -> py_range 0 n bs = Ok (range_up (Z.to_nat (n - 0)) 0 n bs).
Proof.
  intros H. unfold py_range.
  replace (bs =? 0)%Z with false by (symmetry; apply Z.eqb_neq; lia).
  replace (0 <? bs)%Z with true by (symmetry; apply Z.ltb_lt; lia).
  reflexivity.
Qed.

Lemma batch_of_chunk (l : list string) bs i :
  (0 <= i)%Z -> (0 < bs)%Z ->
  batch_of l bs i = firstn (Z.to_nat bs) (skipn (Z.to_nat i) l).
Proof.
  intros Hi Hb. unfold batch_of, py_slice, slice_bound.
  replace (i <? 0)%Z with false by (symmetry; apply Z.ltb_ge; lia).
  replace (i + bs <? 0)%Z with false by (symmetry; apply Z.ltb_ge; lia).
  set (n := List.length l).
  destruct (Z.le_gt_cases (Z.of_nat n) i) as [Hn|Hn].
  - rewrite (Z.min_r i), (Z.min_r (i + bs)) by lia.
    rewrite Nat2Z.id, Z.sub_diag.
    rewrite (skipn_all2 (n := n)) by (unfold n; lia).
    rewrite (skipn_all2 (n := Z.to_nat i)) by (unfold n in Hn; lia).
    rewrite !firstn_nil. reflexivity.
  - rewrite (Z.min_l i) by lia.
    assert (Hlen : List.length (skipn (Z.to_nat i) l) = (n - Z.to_nat i)%nat)
      by (rewrite length_skipn; reflexivity).
    destruct (Z.le_gt_cases (i + bs) (Z.of_nat n)) as [Hm|Hm].
    + rewrite (Z.min_l (i + bs)) by lia. f_equal. lia.
    + rewrite (Z.min_r (i + bs)) by lia.
      rewrite !firstn_all2 by lia. reflexivity.
Qed.

Section Batches.
Variable files : list string.
Variable bs : Z.
Hypothesis Hbs : (0 < bs)%Z.
Let n := Z.of_nat (List.length files).

Lemma batches_concat fuel s :
  (0 <= s)%Z -> (Z.to_nat (n - s) <= fuel)%nat ->
  List.concat (map (batch_of files bs) (range_up fuel s n bs)) = skipn (Z.to_nat s) files.
Proof.
  revert s. induction fuel as [|fuel IH]; intros s Hs Hf.
  - simpl. rewrite skipn_all2; [reflexivity|]. unfold n in Hf. lia.
  - cbn [range_up]. destruct (s <? n)%Z eqn:E.
    + apply Z.ltb_lt in E. cbn [map List.concat].
      rewrite IH by lia. rewrite batch_of_chunk by lia.
      replace (Z.to_nat (s + bs)) with (Z.to_nat bs + Z.to_nat s)%nat by lia.
      rewrite <- skipn_skipn. apply firstn_skipn.
    + apply Z.ltb_ge in E. simpl. rewrite skipn_all2; [reflexivity|].
      unfold n in E. lia.
Qed.

Lemma batches_length fuel s :
  (Z.to_nat (n - s) <= fuel)%nat ->
  Z.of_nat (List.length (range_up fuel s n bs)) = Z.max 0 ((n - s + bs - 1) / bs).
Proof.
  revert s. induction fuel as [|fuel IH]; intros s Hf.
  - simpl. assert (n - s <= 0)%Z by lia.
    assert ((n - s + bs - 1) / bs < 1)%Z by (apply Z.div_lt_upper_bound; lia).
    lia.
  - cbn [range_up]. destruct (s <? n)%Z eqn:E.
    + apply Z.ltb_lt in E. cbn [List.length]. rewrite Nat2Z.inj_succ.
      rewrite IH by lia.
      replace (n - s + bs - 1)%Z with ((n - (s + bs) + bs - 1) + 1 * bs)%Z by lia.
      rewrite Z.div_add by lia.
      assert (0 <= (n - (s + bs) + bs - 1) / bs)%Z by (apply Z.div_pos; lia).
      lia.
    + apply Z.ltb_ge in E. simpl.
      assert ((n - s + bs - 1) / bs < 1)%Z by (apply Z.div_lt_upper_bound; lia).
      lia.
Qed.

Lemma batches_bounded fuel s :
  Forall (fun g => (Z.of_nat (List.length g) <= bs)%Z)
         (map (batch_of files bs) (range_up fuel s n bs)).
Proof.
  apply Forall_map. apply Forall_forall. intros i _.
  unfold batch_of, py_slice.
  rewrite length_firstn. set (a := slice_bound _ i). set (b := slice_bound _ (i + bs)).
  assert (0 <= a <= n /\ 0 <= b <= n)%Z as [Ha Hb']
    by (unfold a, b, slice_bound, n; split;
        destruct (_ <? 0)%Z eqn:E; try apply Z.ltb_lt in E; try apply Z.ltb_ge in E; lia).
  assert (b - a <= bs)%Z.
  { unfold a, b, slice_bound.
    destruct (i <? 0)%Z eqn:E1; destruct (i + bs <? 0)%Z eqn:E2;
      try apply Z.ltb_lt in E1; try apply Z.ltb_ge in E1;
      try apply Z.ltb_lt in E2; try apply Z.ltb_ge in E2; lia. }
  lia.
Qed.
End Batches.

Lemma groups_exactly_one (x : string) (G : list (list string)) :
  NoDup (List.concat G) -> In x (List.concat G) ->
  List.length (filter (fun g => existsb (String.eqb x) g) G) = 1%nat.
Proof.
  induction G as [|g G IH]; simpl; [tauto|].
  intros Hnd Hin. apply in_app_or in Hin.
  destruct (existsb (String.eqb x) g) eqn:E.
  - apply existsb_eqb_In in E. cbn [List.length]. f_equal.
    destruct (in_split _ _ E) as (g1 & g2 & ->).
    rewrite <- app_assoc in Hnd. simpl in Hnd.
    apply NoDup_remove_2 in Hnd.
    assert (Hout : ~ In x (List.concat G)) by (intros H; apply Hnd; apply in_or_app; right;
                                          apply in_or_app; right; exact H).
    clear -Hout. induction G as [|h G IHG]; [reflexivity|].
    simpl in Hout |- *. destruct (existsb (String.eqb x) h) eqn:E'.
    + apply existsb_eqb_In in E'. exfalso. apply Hout, in_or_app. left. exact E'.
    + apply IHG. intros H. apply Hout, in_or_app. right. exact H.
  - apply IH; [apply NoDup_app_remove_l in Hnd; exact Hnd|].
    destruct Hin as [Hin|Hin]; [|exact Hin].
    apply existsb_eqb_In in Hin. congruence.
Qed.

(** ** main and its fallback loop *)

Lemma bind_inv {E A B} (m : St E A) (k : A -> St E B) tr r tr' :
  bind m k tr = (r, tr') ->
  (exists e, m tr = (Exc e, tr') /\ r = Exc e) \/
  (exists a t, m tr = (Ok a, t) /\ k a t = (r, tr')).
Proof.
  unfold bind. destruct (m tr) as [[a|e] t]; intros H.
  - right. exists a, t. split; [reflexivity | exact H].
  - left. injection H as <- <-. exists e. split; reflexivity.
Qed.

Lemma open_step args env_browser links tr :
  (if open_ args && negb (List.length links =? 0)%nat
   then open_in_host_browser env_browser (first_or_empty links)
   else ret tt) tr = (Ok tt, tr ++ open_events args env_browser links).
Proof.
  unfold open_events. destruct (open_ args && _).
  - unfold open_in_host_browser. destruct (browser_cmd env_browser); reflexivity.
  - rewrite app_nil_r. reflexivity.
Qed.

Lemma batch_loop_shape args env_browser up files is acc tr r tr' :
  batch_loop args env_browser up files is acc tr = (r, tr') ->
  exists ev, tr' = tr ++ ev /\ loop_shape args env_browser up files tr is acc ev r.
Proof.
  revert acc tr. induction is as [|i is IH]; intros acc tr H.
  - cbn [batch_loop] in H. unfold ret in H. injection H as <- <-.
    exists []. split; [rewrite app_nil_r; reflexivity | constructor].
  - cbn [batch_loop] in H.
    erewrite bind_step in H by reflexivity.
    unfold bind at 1, call_upload in H.
    destruct (up (tr ++ [MPrint (MsgBatch (i / batch_size args + 1)
                     (List.length (batch_of files (batch_size args) i)))])
                 (batch_of files (batch_size args) i)
                 (if (i =? 0)%Z then album args else None) (headful args))
      as [links|e] eqn:E.
    + rewrite (bind_step _ _ _ _ _ (open_step _ _ _ _)) in H.
      rewrite <- !app_assoc in H.
      destruct (IH _ _ H) as (ev & -> & Hs).
      eexists. split.
      2:{ apply (shape_round _ _ _ _ _ _ _ _ _ _ _ E Hs). }
      rewrite <- !app_assoc. reflexivity.
    + injection H as <- <-. eexists. split.
      2:{ apply (shape_raise _ _ _ _ _ _ _ _ _ E). }
      rewrite <- !app_assoc. reflexivity.
Qed.

Lemma grows_ret {A} P (a : A) : grows P (ret a).
Proof.
  intros tr r tr' H. unfold ret in H. injection H as <- <-.
  exists []. split; [rewrite app_nil_r; reflexivity | constructor].
Qed.

Lemma grows_mprint P m : P (MPrint m) -> grows P (mprint m).
Proof.
  intros Hp tr r tr' H. unfold mprint in H. injection H as <- <-.
  exists [MPrint m]. split; [reflexivity | repeat constructor; exact Hp].
Qed.

Lemma grows_bind {A B} P (m : MM A) (k : A -> MM B) :
  grows P m -> (forall a, grows P (k a)) -> grows P (bind m k).
Proof.
  intros Hm Hk tr r tr' H. apply bind_inv in H as [(e & E & _)|(a & t & E & H)].
  - exact (Hm _ _ _ E).
  - destruct (Hm _ _ _ E) as (ev1 & -> & F1).
    destruct (Hk a _ _ _ H) as (ev2 & -> & F2).
    exists (ev1 ++ ev2). split; [symmetry; apply app_assoc | apply Forall_app; split; assumption].
Qed.

Lemma grows_print_links P links :
  (forall l, P (MPrint (MsgLink l))) -> grows P (print_links links).
Proof.
  intros Hp. induction links as [|l links IH]; cbn [print_links].
  - apply grows_ret.
  - apply grows_bind; [apply grows_mprint, Hp | intros _; exact IH].
Qed.

Lemma grows_open P env_browser url :
  P (MPrint MsgSetBrowser) -> (forall c, P (MSystem c)) ->
  grows P (open_in_host_browser env_browser url).
Proof.
  intros H1 H2. unfold open_in_host_browser. destruct (browser_cmd env_browser).
  - intros tr r tr' H. unfold system in H. injection H as <- <-.
    eexists. split; [reflexivity | repeat constructor; apply H2].
  - apply grows_mprint, H1.
Qed.

Lemma after_fallback_app l1 l2 :
  after_fallback (l1 ++ l2) =
  if existsb is_fallback l1 then after_fallback l1 ++ l2 else after_fallback l2.
Proof.
  induction l1 as [|e l1 IH]; [reflexivity|].
  cbn [app after_fallback existsb]. destruct (is_fallback e); [reflexivity | exact IH].
Qed.

Lemma after_fallback_none l :
  Forall (fun e => is_fallback e = false) l -> after_fallback l = [].
Proof.
  induction 1 as [|e l He _ IH]; [reflexivity|].
  cbn [after_fallback]. rewrite He. exact IH.
Qed.

Lemma existsb_fallback_none l :
  Forall (fun e => is_fallback e = false) l -> existsb is_fallback l = false.
Proof. induction 1 as [|e l He _ IH]; [reflexivity|]. simpl. rewrite He. exact IH. Qed.

Lemma uploads_app l1 l2 : uploads (l1 ++ l2) = uploads l1 ++ uploads l2.
Proof. induction l1 as [|[]]; simpl; f_equal; assumption. Qed.

Lemma upload_albums_app l1 l2 :
  upload_albums (l1 ++ l2) = upload_albums l1 ++ upload_albums l2.
Proof. induction l1 as [|[]]; simpl; f_equal; assumption. Qed.

Lemma first_system_app l1 l2 :
  first_system (l1 ++ l2) =
  match first_system l1 with Some c => Some c | None => first_system l2 end.
Proof. induction l1 as [|[]]; simpl; auto. Qed.

Lemma first_link_app l1 l2 :
  first_link (l1 ++ l2) =
  match first_link l1 with Some c => Some c | None => first_link l2 end.
Proof. induction l1 as [|[[]| |]]; simpl; auto. Qed.

Lemma print_links_events ls tr :
  print_links ls tr = (Ok tt, tr ++ map (fun l => MPrint (MsgLink l)) ls).
Proof.
  revert tr. induction ls as [|l ls IH]; intros tr.
  - rewrite app_nil_r. reflexivity.
  - cbn [print_links]. erewrite bind_step by reflexivity.
    rewrite IH, <- app_assoc. reflexivity.
Qed.

(** The runs of main: it stops before the fallback, or the first attempt
    gives links, or it falls back to the batch loop. *)
Lemma main_cases args env_browser fs up r tr :
  main args env_browser fs up = (r, tr) ->
  ((exists e, collect_avif_files fs (dir args) = Exc e /\ r = Exc e /\ tr = []) \/
   (collect_avif_files fs (dir args) = Ok [] /\ r = Ok tt /\
    tr = [MPrint (MsgNoFiles (dir args))]) \/
   (exists files e,
      collect_avif_files fs (dir args) = Ok files /\ files <> [] /\
      up [MPrint (MsgFound (List.length files))] (py_slice files 0 (batch_size args))
         (album args) (headful args) = Exc e /\ r = Exc e /\
      tr = [MPrint (MsgFound (List.length files));
            MUpload (py_slice files 0 (batch_size args)) (album args) (headful args)])) \/
  (exists files l ls,
     collect_avif_files fs (dir args) = Ok files /\ files <> [] /\
     up [MPrint (MsgFound (List.length files))] (py_slice files 0 (batch_size args))
        (album args) (headful args) = Ok (l :: ls) /\
     r = Ok tt /\
     tr = [MPrint (MsgFound (List.length files));
           MUpload (py_slice files 0 (batch_size args)) (album args) (headful args);
           MPrint MsgProduced]
          ++ map (fun l => MPrint (MsgLink l)) (l :: ls)
          ++ (if open_ args then open_events args env_browser (l :: ls) else [])) \/
  (exists files,
     collect_avif_files fs (dir args) = Ok files /\ files <> [] /\
     up [MPrint (MsgFound (List.length files))] (py_slice files 0 (batch_size args))
        (album args) (headful args) = Ok [] /\
     let pre := [MPrint (MsgFound (List.length files));
                 MUpload (py_slice files 0 (batch_size args)) (album args) (headful args);
                 MPrint MsgFallback] in
     ((exists e, py_range 0 (Z.of_nat (List.length files)) (batch_size args) = Exc e /\
                 r = Exc e /\ tr = pre) \/
      (exists is ev rl,
         py_range 0 (Z.of_nat (List.length files)) (batch_size args) = Ok is /\
         loop_shape args env_browser up files pre is [] ev rl /\
         ((exists e, rl = Exc e /\ r = Exc e /\ tr = pre ++ ev) \/
          (exists all, rl = Ok all /\ r = Ok tt /\
             tr = pre ++ ev ++
                  match all with
                  | [] => [MPrint MsgNoLinks]
                  | _ :: _ => MPrint MsgCollected :: map (fun l => MPrint (MsgLink l)) all
                  end))))).
Proof.
  unfold main. intros H.
  apply bind_inv in H as [(e & E & ->)|(files & t & E & H)].
  { unfold lift in E. injection E as E <-. left. left. exists e. repeat split. exact E. }
  unfold lift in E. injection E as Ef <-.
  destruct files as [|f fs'] eqn:Efiles.
  { unfold mprint in H. injection H as <- <-. left. right. left. repeat split. exact Ef. }
  rewrite <- Efiles in *.
  assert (Hne : files <> []) by (rewrite Efiles; discriminate).
  clear Efiles f fs'.
  erewrite bind_step in H by reflexivity.
  unfold bind at 1, call_upload in H. simpl app in H.
  destruct (up [MPrint (MsgFound (List.length files))]
               (py_slice files 0 (batch_size args)) (album args) (headful args))
    as [links|e] eqn:Eup.
  2:{ injection H as <- <-. left. right. right. exists files, e. repeat split; assumption. }
  destruct links as [|l ls].
  - right. right. exists files. split; [exact Ef|]. split; [exact Hne|].
    split; [exact Eup|]. cbv zeta.
    erewrite bind_step in H by reflexivity. simpl app in H.
    unfold bind at 1, lift in H.
    destruct (py_range 0 (Z.of_nat (List.length files)) (batch_size args))
      as [is|e] eqn:Er.
    2:{ injection H as <- <-. left. exists e. repeat split. }
    right.
    apply bind_inv in H as [(e & E & ->)|(all & t2 & E & H)].
    + destruct (batch_loop_shape _ _ _ _ _ _ _ _ _ E) as (ev & -> & Hs).
      exists is, ev, (Exc e). split; [reflexivity|]. split; [exact Hs|].
      left. exists e. repeat split.
    + destruct (batch_loop_shape _ _ _ _ _ _ _ _ _ E) as (ev & -> & Hs).
      exists is, ev, (Ok all). split; [reflexivity|]. split; [exact Hs|].
      right. exists all. split; [reflexivity|].
      destruct all as [|a all'].
      * unfold mprint in H. injection H as <- <-. split; reflexivity.
      * erewrite bind_step in H by reflexivity.
        rewrite print_links_events in H. injection H as <- <-.
        split; [reflexivity|]. rewrite <- !app_assoc. reflexivity.
  - right. left. exists files, l, ls. split; [exact Ef|]. split; [exact Hne|].
    split; [exact Eup|].
    erewrite bind_step in H by reflexivity.
    erewrite bind_step in H by apply print_links_events.
    assert (Ho : forall t0, (if open_ args
                 then open_in_host_browser env_browser (first_or_empty (l :: ls))
                 else ret tt) t0 =
                 (Ok tt, t0 ++ (if open_ args then open_events args env_browser (l :: ls)
                               else []))).
    { intros t0. pose proof (open_step args env_browser (l :: ls) t0) as Hs.
      simpl andb in Hs. destruct (open_ args);
        [exact Hs | rewrite app_nil_r; reflexivity]. }
    rewrite Ho in H. injection H as <- <-. split; [reflexivity|].
    reflexivity.
Qed.

Lemma open_events_obs args env_browser links :
  uploads (open_events args env_browser links) = [] /\
  upload_albums (open_events args env_browser links) = [] /\
  first_link (open_events args env_browser links) = None.
Proof.
  unfold open_events. destruct (_ && _); [destruct (browser_cmd env_browser)|];
    repeat split.
Qed.

Section LoopFacts.
Variable args : Args.
Variable env_browser : option string.
Variable up : Uploader.
Variable files : list string.

Lemma loop_albums tr is acc ev rl :
  loop_shape args env_browser up files tr is acc ev rl ->
  forall k a, nth_error (upload_albums ev) k = Some a ->
  exists i, nth_error is k = Some i /\ a = batch_album args i.
Proof.
  induction 1 as [tr acc|tr i is acc e Hup|tr i is acc links ev r Hup Hs IH];
    intros k a Hk.
  - destruct k; discriminate Hk.
  - destruct k as [|[|k]]; simpl in Hk; try discriminate.
    injection Hk as <-. exists i. split; reflexivity.
  - rewrite upload_albums_app in Hk.
    destruct (open_events_obs args env_browser links) as (_ & Ho & _).
    rewrite upload_albums_app, Ho in Hk. simpl in Hk.
    destruct k as [|k].
    + injection Hk as <-. exists i. split; reflexivity.
    + destruct (IH k a Hk) as (i' & Hi & ->). exists i'. split; [exact Hi | reflexivity].
Qed.

Lemma loop_uploads_ok tr is acc ev v :
  loop_shape args env_browser up files tr is acc ev (Ok v) ->
  uploads ev = map (batch_of files (batch_size args)) is.
Proof.
  intros Hs. remember (Ok v) as rl eqn:Erl. revert v Erl.
  induction Hs as [tr acc|tr i is acc e Hup|tr i is acc links ev r Hup Hs IH];
    intros v Erl.
  - reflexivity.
  - discriminate Erl.
  - rewrite uploads_app.
    destruct (open_events_obs args env_browser links) as (Ho & _ & _).
    rewrite uploads_app, Ho. simpl. f_equal. apply (IH v Erl).
Qed.

Lemma loop_raise_from_up tr is acc ev e :
  loop_shape args env_browser up files tr is acc ev (Exc e) ->
  exists t b a h, up t b a h = Exc e.
Proof.
  intros Hs. remember (Exc e) as rl eqn:Erl. revert e Erl.
  induction Hs as [tr acc|tr i is acc e' Hup|tr i is acc links ev r Hup Hs IH];
    intros e Erl.
  - discriminate Erl.
  - injection Erl as ->. eexists _, _, _, _. exact Hup.
  - exact (IH e Erl).
Qed.

Lemma loop_opens_first_link tr is acc ev v :
  loop_shape args env_browser up files tr is acc ev (Ok v) ->
  open_ args = true ->
  exists new, v = acc ++ new /\ first_link ev = None /\
    first_system ev =
      match new with
      | [] => None
      | x :: _ => option_map (fun c => browser_command c x) (browser_cmd env_browser)
      end.
Proof.
  intros Hs. remember (Ok v) as rl eqn:Erl. revert v Erl.
  induction Hs as [tr acc|tr i is acc e Hup|tr i is acc links ev r Hup Hs IH];
    intros v Erl Hopen.
  - injection Erl as ->. exists []. rewrite app_nil_r. repeat split.
  - discriminate Erl.
  - destruct (IH v Erl Hopen) as (new & -> & Hl & Hsys).
    exists (links ++ new). split; [symmetry; apply app_assoc|].
    destruct (open_events_obs args env_browser links) as (_ & _ & Hol).
    split.
    { cbn [app first_link]. rewrite first_link_app, Hol. exact Hl. }
    cbn [app first_system]. rewrite first_system_app.
    unfold open_events in *. rewrite Hopen. cbn [andb].
    destruct links as [|x links']; cbn [List.length Nat.eqb negb app].
    + exact Hsys.
    + destruct (browser_cmd env_browser) as [c|]; [reflexivity|].
      cbn [first_system]. rewrite Hsys. destruct new; reflexivity.
Qed.
End LoopFacts.

Lemma range_up_nth fuel s stop step k i :
  nth_error (range_up fuel s stop step) k = Some i -> i = (s + Z.of_nat k * step)%Z.
Proof.
  revert s k. induction fuel as [|fuel IH]; intros s k H; [destruct k; discriminate H|].
  cbn [range_up] in H. destruct (s <? stop)%Z; [|destruct k; discriminate H].
  destruct k as [|k].
  - injection H as <-. lia.
  - apply IH in H. lia.
Qed.

(** Of the indices of [range(0, N, batch_size)], only the first is 0. *)
Lemma range_index_zero n bs is k i :
  (0 <= n)%Z -> py_range 0 n bs = Ok is -> nth_error is k = Some i ->
  (i =? 0)%Z = (k =? 0)%nat.
Proof.
  intros Hn. unfold py_range.
  destruct (bs =? 0)%Z eqn:E0; [discriminate|].
  apply Z.eqb_neq in E0.
  destruct (0 <? bs)%Z eqn:Ep; intros Hr; injection Hr as <-; intros Hk.
  - apply Z.ltb_lt in Ep. apply range_up_nth in Hk. subst i.
    destruct k as [|k]; [reflexivity|]. apply Z.eqb_neq. lia.
  - replace (Z.to_nat (- n)) with 0%nat in Hk by lia. destruct k; simpl in Hk; discriminate Hk.
Qed.

Lemma map_links_obs (ls : list string) :
  uploads (map (fun l => MPrint (MsgLink l)) ls) = [] /\
  upload_albums (map (fun l => MPrint (MsgLink l)) ls) = [] /\
  first_system (map (fun l => MPrint (MsgLink l)) ls) = None /\
  Forall (fun e => is_fallback e = false) (map (fun l => MPrint (MsgLink l)) ls).
Proof.
  induction ls as [|l ls (H1 & H2 & H3 & H4)].
  - repeat split. constructor.
  - simpl. repeat split; try assumption. constructor; [reflexivity | exact H4].
Qed.

Lemma final_events_obs (all : list string) :
  let fin := match all with
             | [] => [MPrint MsgNoLinks]
             | _ :: _ => MPrint MsgCollected :: map (fun l => MPrint (MsgLink l)) all
             end in
  uploads fin = [] /\ upload_albums fin = [] /\ first_system fin = None /\
  first_link fin = hd_error all.
Proof.
  destruct all as [|a all']; cbv zeta; [repeat split|].
  destruct (map_links_obs (a :: all')) as (H1 & H2 & H3 & _).
  repeat split; simpl; simpl in H1, H2, H3; assumption.
Qed.

(** ** What a computation adds to the trace *)

Lemma adds_ret {E A} (P : E -> Prop) (a : A) : adds P (ret a).
Proof.
  intros tr r tr' H. unfold ret in H. injection H as <- <-.
  exists []. split; [rewrite app_nil_r; reflexivity | constructor].
Qed.

Lemma adds_pure {E A} (P : E -> Prop) (f : list E -> res A) : adds P (fun tr => (f tr, tr)).
Proof.
  intros tr r tr' H. injection H as <- <-.
  exists []. split; [rewrite app_nil_r; reflexivity | constructor].
Qed.

Lemma adds_bind {E A B} (P : E -> Prop) (m : St E A) (k : A -> St E B) :
  adds P m -> (forall a, adds P (k a)) -> adds P (bind m k).
Proof.
  intros Hm Hk tr r tr' H. unfold bind in H.
  destruct (m tr) as [[a|e] t] eqn:Em.
  - destruct (Hm _ _ _ Em) as (ev1 & -> & F1).
    destruct (Hk a _ _ _ H) as (ev2 & -> & F2).
    exists (ev1 ++ ev2). split; [symmetry; apply app_assoc | apply Forall_app; split; assumption].
  - injection H as <- <-. exact (Hm _ _ _ Em).
Qed.

Lemma adds_try {E A} (P : E -> Prop) (m h : St E A) :
  adds P m -> adds P h -> adds P (try_ m h).
Proof.
  intros Hm Hh tr r tr' H. unfold try_ in H.
  destruct (m tr) as [[a|e] t] eqn:Em.
  - injection H as <- <-. exact (Hm _ _ _ Em).
  - destruct (Hm _ _ _ Em) as (ev1 & -> & F1).
    destruct (Hh _ _ _ H) as (ev2 & -> & F2).
    exists (ev1 ++ ev2). split; [symmetry; apply app_assoc | apply Forall_app; split; assumption].
Qed.

Lemma adds_perform (P : event -> Prop) pg ev : P ev -> adds P (perform pg ev).
Proof.
  intros Hp tr r tr' H. unfold perform in H. destruct (act pg tr ev).
  - injection H as <- <-. exists [ev]. split; [reflexivity | repeat constructor; exact Hp].
  - injection H as <- <-. exists []. split; [rewrite app_nil_r; reflexivity | constructor].
Qed.

Lemma adds_print (P : event -> Prop) m : P (Print m) -> adds P (print m).
Proof.
  intros Hp tr r tr' H. unfold print in H. injection H as <- <-.
  exists [Print m]. split; [reflexivity | repeat constructor; exact Hp].
Qed.

Lemma adds_weaken {E A} (P Q : E -> Prop) (m : St E A) :
  (forall e, P e -> Q e) -> adds P m -> adds Q m.
Proof.
  intros HPQ Hm tr r tr' H. destruct (Hm _ _ _ H) as (ev & -> & F).
  exists ev. split; [reflexivity | eapply Forall_impl; eassumption].
Qed.

(** Build an [adds] proof by following the structure of the code; the
    events performed or printed are left as side goals. *)
Ltac adds_auto :=
  repeat match goal with
  | |- forall _, _ => intros ?
  | |- adds _ (bind _ _) => apply adds_bind
  | |- adds _ (try_ _ _) => apply adds_try
  | |- adds _ (ret _) => apply adds_ret
  | |- adds _ (qs _ _) => apply adds_pure
  | |- adds _ (qsa _ _) => apply adds_pure
  | |- adds _ (attr _ _ _) => apply adds_pure
  | |- adds _ (multiple _ _) => apply adds_pure
  | |- adds _ (perform _ _) => apply adds_perform
  | |- adds _ (print _) => apply adds_print
  | |- adds _ (match ?x with _ => _ end) => destruct x
  | |- adds _ (if ?b then _ else _) => destruct b
  end.

Lemma adds_nothing {E} (ev : list E) : Forall (fun _ => False) ev -> ev = [].
Proof. intros H. destruct H as [|x ev Hx _]; [reflexivity | destruct Hx]. Qed.

Lemma find_file_input_in_adds pg sels : adds (fun _ => False) (find_file_input_in pg sels).
Proof. induction sels as [|sel sels IH]; cbn [find_file_input_in]; adds_auto; exact IH. Qed.

Lemma gather_adds pg anchors found : adds (fun _ => False) (gather pg anchors found).
Proof.
  revert found. induction anchors as [|a anchors IH]; intros found;
    cbn [gather]; adds_auto; apply IH.
Qed.

Lemma click_upload_in_adds pg sels :
  adds (fun e => e = Press "Enter" \/ exists b, e = Click b) (click_upload_in pg sels).
Proof.
  induction sels as [|sel sels IH]; cbn [click_upload_in]; adds_auto;
    eauto.
Qed.

Lemma fill_album_title_in_adds pg title sels :
  adds (fun e => exists el, e = Fill el title) (fill_album_title_in pg title sels).
Proof.
  induction sels as [|sel sels IH]; cbn [fill_album_title_in]; adds_auto; eauto.
Qed.

Lemma poll_adds pg T fuel e found : adds is_wait (poll pg T fuel e found).
Proof.
  revert e found. induction fuel as [|fuel IH]; intros e found; cbn [poll]; adds_auto;
    first [ apply IH | exact I
          | apply (adds_weaken (fun _ => False)); [intros ? [] | apply gather_adds] ].
Qed.

Lemma adds_nothing_id {E A} (m : St E A) tr r tr' :
  adds (fun _ => False) m -> m tr = (r, tr') -> tr' = tr.
Proof.
  intros Hm H. destruct (Hm _ _ _ H) as (ev & -> & F).
  rewrite (adds_nothing ev F), app_nil_r. reflexivity.
Qed.

(** A step that adds nothing to the trace either raises there, leaving
    the trace as it was, or hands its value on with the same trace. *)
Lemma bind_silent {E A B} (m : St E A) (k : A -> St E B) tr r tr' :
  adds (fun _ => False) m -> bind m k tr = (r, tr') ->
  tr' = tr \/ exists a, m tr = (Ok a, tr) /\ k a tr = (r, tr').
Proof.
  intros Hm H. apply bind_inv in H as [(x & Hx & _)|(a & t & Ha & H)].
  - left. exact (adds_nothing_id _ _ _ _ Hm Hx).
  - right. pose proof (adds_nothing_id _ _ _ _ Hm Ha) as ->. exists a. split; assumption.
Qed.

Lemma poll_waits pg T fuel e found tr r tr' :
  poll pg T fuel e found tr = (r, tr') ->
  exists ev, tr' = tr ++ ev /\ Forall is_wait ev /\ (List.length ev <= fuel)%nat.
Proof.
  assert (Hnil : forall n, exists ev, tr' = tr' ++ ev /\ Forall is_wait ev /\
                                      (List.length ev <= n)%nat).
  { intros n. exists []. rewrite app_nil_r. split; [reflexivity | split; [constructor | simpl; lia]]. }
  revert e found tr. induction fuel as [|fuel IH]; intros e found tr H.
  - cbn [poll] in H. unfold ret in H. injection H as _ <-. apply Hnil.
  - cbn [poll] in H. destruct (e <? T)%Z.
    2:{ unfold ret in H. injection H as _ <-. apply Hnil. }
    apply bind_silent in H as [->|(anchors & _ & H)]; [apply Hnil | | apply adds_pure].
    apply bind_silent in H as [->|(found' & _ & H)]; [apply Hnil | | apply gather_adds].
    apply bind_silent in H as [->|(album & _ & H)]; [apply Hnil | | apply adds_pure].
    apply bind_silent in H as [->|(hit & _ & H)]; [apply Hnil | | adds_auto].
    destruct hit as [l|].
    { unfold ret in H. injection H as _ <-. apply Hnil. }
    destruct found' as [|f fs].
    + apply bind_inv in H as [(x & Hx & _)|(u & t & Hp & H)].
      { unfold perform in Hx. destruct (act pg tr (Wait STEP)); [discriminate Hx|].
        injection Hx as _ <-. apply Hnil. }
      unfold perform in Hp. destruct (act pg tr (Wait STEP)); [|discriminate Hp].
      injection Hp as _ <-.
      destruct (IH _ _ _ H) as (ev & -> & F & L).
      exists (Wait STEP :: ev). split; [rewrite <- app_assoc; reflexivity|].
      split; [constructor; [exact I | exact F] | simpl; lia].
    + apply bind_inv in H as [(x & Hx & _)|(u & t & Hp & H)].
      { unfold perform in Hx. destruct (act pg tr (Wait 2000)); [discriminate Hx|].
        injection Hx as _ <-. apply Hnil. }
      unfold perform in Hp. destruct (act pg tr (Wait 2000)); [|discriminate Hp].
      injection Hp as _ <-.
      unfold ret in H. injection H as _ <-.
      exists [Wait 2000]. split; [reflexivity | split; [repeat constructor | simpl; lia]].
Qed.

Lemma find_file_input_in_first pg sels tr v tr' :
  find_file_input_in pg sels tr = (Ok v, tr') ->
  tr' = tr /\
  match v with
  | Some (el, sel) =>
      exists pre post, sels = pre ++ sel :: post /\
        query_selector pg tr sel = Ok (Some el) /\ Forall (lookup_fails pg tr) pre
  | None => Forall (lookup_fails pg tr) sels
  end.
Proof.
  intros H. split; [exact (adds_nothing_id _ _ _ _ (find_file_input_in_adds pg sels) H)|].
  revert v tr' H. induction sels as [|sel sels IH]; intros v tr' H.
  - cbn in H. injection H as <- _. constructor.
  - cbn [find_file_input_in] in H. cbv [bind try_ qs ret] in H.
    destruct (query_selector pg tr sel) as [[el|]|x] eqn:E.
    + injection H as <- _. exists [], sels. split; [reflexivity | split; [exact E | constructor]].
    + destruct v as [[el sel']|]; specialize (IH _ _ H); cbv beta iota in IH.
      * destruct IH as (pre & post & -> & Eq & F). exists (sel :: pre), post.
        split; [reflexivity | split; [exact Eq | constructor; [left; exact E | exact F]]].
      * constructor; [left; exact E | exact IH].
    + destruct v as [[el sel']|]; specialize (IH _ _ H); cbv beta iota in IH.
      * destruct IH as (pre & post & -> & Eq & F). exists (sel :: pre), post.
        split; [reflexivity | split; [exact Eq | constructor; [right; exists x; exact E | exact F]]].
      * constructor; [right; exists x; exact E | exact IH].
Qed.

Lemma click_upload_in_outcome pg sels tr b tr' :
  click_upload_in pg sels tr = (Ok b, tr') ->
  if b then
    (exists sel el, In sel sels /\ query_selector pg tr sel = Ok (Some el) /\
                    tr' = tr ++ [Click el]) \/
    tr' = tr ++ [Press "Enter"]
  else
    tr' = tr /\ (exists x, act pg tr (Press "Enter") = Exc x) /\
    Forall (fun sel => lookup_fails pg tr sel \/
                       exists el x, query_selector pg tr sel = Ok (Some el) /\
                                    act pg tr (Click el) = Exc x) sels.
Proof.
  revert b tr'. induction sels as [|sel sels IH]; intros b tr' H.
  - cbn [click_upload_in] in H. cbv [try_ bind perform ret] in H.
    destruct (act pg tr (Press "Enter")) eqn:A; injection H as <- <-.
    + right. reflexivity.
    + split; [reflexivity | split; [exists e; reflexivity | constructor]].
  - cbn [click_upload_in] in H. cbv [bind try_ qs perform ret] in H.
    assert (Hrest : click_upload_in pg sels tr = (Ok b, tr') ->
                    (exists x, query_selector pg tr sel = Exc x) \/
                    query_selector pg tr sel = Ok None \/
                    (exists el x, query_selector pg tr sel = Ok (Some el) /\
                                  act pg tr (Click el) = Exc x) ->
                    if b then
                      (exists sel0 el, In sel0 (sel :: sels) /\
                         query_selector pg tr sel0 = Ok (Some el) /\ tr' = tr ++ [Click el]) \/
                      tr' = tr ++ [Press "Enter"]
                    else
                      tr' = tr /\ (exists x, act pg tr (Press "Enter") = Exc x) /\
                      Forall (fun sel => lookup_fails pg tr sel \/
                                exists el x, query_selector pg tr sel = Ok (Some el) /\
                                             act pg tr (Click el) = Exc x) (sel :: sels)).
    { intros Hc Hsel. specialize (IH _ _ Hc). destruct b.
      - destruct IH as [(sel0 & el & Hin & E & ->) | ->]; [left|right; reflexivity].
        exists sel0, el. split; [right; exact Hin | split; [exact E | reflexivity]].
      - destruct IH as (-> & Hx & F). split; [reflexivity | split; [exact Hx|]].
        constructor; [|exact F].
        destruct Hsel as [(x & E)|[E|E]]; [left; right; exists x; exact E | left; left; exact E |
                                          right; exact E]. }
    destruct (query_selector pg tr sel) as [[el|]|x] eqn:E.
    + destruct (act pg tr (Click el)) eqn:A.
      * injection H as <- <-. left. exists sel, el.
        split; [left; reflexivity | split; [exact E | reflexivity]].
      * apply Hrest; [exact H | right; right; exists el, e; split; [reflexivity | exact A]].
    + apply Hrest; [exact H | right; left; reflexivity].
    + apply Hrest; [exact H | left; exists x; reflexivity].
Qed.

Lemma fill_album_title_in_outcome pg title sels tr u tr' :
  fill_album_title_in pg title sels tr = (Ok u, tr') ->
  tr' = tr \/
  exists sel el, In sel sels /\ query_selector pg tr sel = Ok (Some el) /\
                 tr' = tr ++ [Fill el title].
Proof.
  revert u tr'. induction sels as [|sel sels IH]; intros u tr' H.
  - cbn in H. injection H as _ <-. left. reflexivity.
  - cbn [fill_album_title_in] in H. cbv [bind try_ qs perform ret] in H.
    assert (Hrest : fill_album_title_in pg title sels tr = (Ok u, tr') ->
                    tr' = tr \/
                    exists sel0 el, In sel0 (sel :: sels) /\
                      query_selector pg tr sel0 = Ok (Some el) /\ tr' = tr ++ [Fill el title]).
    { intros Hf. destruct (IH _ _ Hf) as [->|(sel0 & el & Hin & E & ->)]; [left; reflexivity|].
      right. exists sel0, el. split; [right; exact Hin | split; [exact E | reflexivity]]. }
    destruct (query_selector pg tr sel) as [[el|]|x] eqn:E.
    + destruct (act pg tr (Fill el title)) eqn:A.
      * injection H as _ <-. right. exists sel, el.
        split; [left; reflexivity | split; [exact E | reflexivity]].
      * apply Hrest, H.
    + apply Hrest, H.
    + apply Hrest, H.
Qed.

(** ** The trace of upload_files *)

Lemma perform_ok_inv pg ev tr u t : perform pg ev tr = (Ok u, t) -> t = tr ++ [ev].
Proof.
  unfold perform. destruct (act pg tr ev); intros H;
    [injection H as _ <-; reflexivity | discriminate H].
Qed.

Lemma setfiles_app l1 l2 : setfiles (l1 ++ l2) = setfiles l1 ++ setfiles l2.
Proof. induction l1 as [|e l1 IH]; [reflexivity|]. destruct e; simpl; rewrite IH; reflexivity. Qed.

Lemma fills_app l1 l2 : fills (l1 ++ l2) = fills l1 ++ fills l2.
Proof. induction l1 as [|e l1 IH]; [reflexivity|]. destruct e; simpl; rewrite IH; reflexivity. Qed.

Lemma setfiles_none (P : event -> Prop) ev :
  (forall e, P e -> setfiles [e] = []) -> Forall P ev -> setfiles ev = [].
Proof.
  intros HP. induction 1 as [|e ev He _ IH]; [reflexivity|].
  change (e :: ev) with ([e] ++ ev). rewrite setfiles_app, HP, IH by exact He. reflexivity.
Qed.

Lemma fills_none (P : event -> Prop) ev :
  (forall e, P e -> fills [e] = []) -> Forall P ev -> fills ev = [].
Proof.
  intros HP. induction 1 as [|e ev He _ IH]; [reflexivity|].
  change (e :: ev) with ([e] ++ ev). rewrite fills_app, HP, IH by exact He. reflexivity.
Qed.

(** The album-title step, under the guard [b] the code puts on it. *)
Lemma fill_step pg (a : option string) (b : bool) tr u t :
  (match a with
   | Some ttl => if b then fill_album_title pg ttl else ret tt
   | None => ret tt
   end) tr = (Ok u, t) ->
  exists ev, t = tr ++ ev /\ setfiles ev = [] /\
    Forall (fun s => a = Some s /\ b = true) (fills ev) /\
    (List.length (fills ev) <= (if b then 1 else 0))%nat.
Proof.
  assert (Hnil : forall k, exists ev, tr = tr ++ ev /\ setfiles ev = [] /\
                   Forall (fun s => a = Some s /\ b = true) (fills ev) /\
                   (List.length (fills ev) <= k)%nat).
  { intros k. exists []. rewrite app_nil_r. repeat split; [constructor | simpl; lia]. }
  intros H. destruct a as [ttl|].
  2:{ unfold ret in H. injection H as _ <-. apply Hnil. }
  destruct b.
  2:{ unfold ret in H. injection H as _ <-. apply Hnil. }
  unfold fill_album_title in H.
  destruct (fill_album_title_in_outcome _ _ _ _ _ _ H) as [-> | (sel & el & _ & _ & ->)];
    [apply Hnil|].
  exists [Fill el ttl]. repeat split; [repeat constructor | simpl; lia].
Qed.

Lemma upload_sequential_trace pg el a n i fs results tr v tr' :
  (1 <= i)%nat ->
  upload_sequential pg el a n i fs results tr = (Ok v, tr') ->
  exists ev, tr' = tr ++ ev /\ setfiles ev = map (fun f => [f]) fs /\
    Forall (fun s => a = Some s /\ s <> EmptyString) (fills ev) /\
    (List.length (fills ev) <= (if (i =? 1)%nat then 1 else 0))%nat.
Proof.
  revert i results tr. induction fs as [|f fs IH]; intros i results tr Hi H.
  - cbn in H. injection H as _ <-. exists []. rewrite app_nil_r.
    repeat split; [constructor | simpl; lia].
  - cbn [upload_sequential] in H.
    apply bind_ok_inv in H as (u1 & t1 & H1 & H). unfold print in H1. injection H1 as _ <-.
    apply bind_ok_inv in H as (u2 & t2 & H2 & H). apply perform_ok_inv in H2. subst t2.
    apply bind_ok_inv in H as (u3 & t3 & H3 & H).
    destruct (fill_step _ _ _ _ _ _ H3) as (ev3 & -> & S3 & F3 & L3).
    apply bind_ok_inv in H as (u4 & t4 & H4 & H).
    destruct (click_upload_in_adds _ _ _ _ _ H4) as (ev4 & -> & F4).
    apply bind_ok_inv in H as (links & t5 & H5 & H).
    destruct (poll_adds _ _ _ _ _ _ _ _ H5) as (ev5 & -> & F5).
    apply bind_ok_inv in H as (u6 & t6 & H6 & H). apply perform_ok_inv in H6. subst t6.
    destruct (IH (S i) _ _ ltac:(lia) H) as (ev & -> & Sev & F & L).
    exists (Print (MsgUploadingOne i n f) :: SetFiles el [f] :: ev3 ++ ev4 ++ ev5 ++ Goto URL :: ev).
    assert (S4 : setfiles ev4 = [] /\ fills ev4 = []).
    { split; [apply (setfiles_none (fun e => e = Press "Enter" \/ exists b, e = Click b))
             |apply (fills_none (fun e => e = Press "Enter" \/ exists b, e = Click b))];
        try exact F4; intros e [->|[b ->]]; reflexivity. }
    assert (S5 : setfiles ev5 = [] /\ fills ev5 = []).
    { split; [apply (setfiles_none is_wait) | apply (fills_none is_wait)];
        try exact F5; intros e He; destruct e; try destruct He; reflexivity. }
    replace (S i =? 1)%nat with false in L by (symmetry; apply Nat.eqb_neq; lia).
    destruct (fills ev) as [|s fs'] eqn:Ef; [|simpl in L; lia].
    split; [rewrite <- !app_assoc; reflexivity|].
    cbn [setfiles fills]. rewrite !setfiles_app, !fills_app. cbn [setfiles fills].
    rewrite S3, (proj1 S4), (proj2 S4), (proj1 S5), (proj2 S5), Sev, Ef.
    cbn [setfiles fills app map].
    rewrite !app_nil_r. split; [reflexivity|]. split.
    + eapply Forall_impl; [|exact F3]. intros s' [Ea Eb]. split; [exact Ea|].
      subst a. apply andb_prop in Eb as [Eb _]. apply truthy_nonempty, Eb.
    + destruct (truthy a && (i =? 1)%nat) eqn:B; destruct (i =? 1)%nat eqn:B';
        rewrite ?andb_false_r in B; try discriminate B; lia.
Qed.

Lemma upload_files_trace pg fs a h tr l tr' :
  upload_files pg fs a h tr = (Ok l, tr') ->
  exists mid, tr' = tr ++ [Launch (negb h); NewPage; Goto URL] ++ mid ++ [Close] /\
    ((setfiles mid = [] /\ l = []) \/ setfiles mid = [fs] \/
     setfiles mid = map (fun f => [f]) fs) /\
    Forall (fun s => a = Some s /\ s <> EmptyString) (fills mid) /\
    (List.length (fills mid) <= 1)%nat.
Proof.
  unfold upload_files. intros H.
  apply bind_ok_inv in H as (u1 & t1 & H1 & H). apply perform_ok_inv in H1. subst t1.
  apply bind_ok_inv in H as (u2 & t2 & H2 & H). apply perform_ok_inv in H2. subst t2.
  apply bind_ok_inv in H as (u3 & t3 & H3 & H). apply perform_ok_inv in H3. subst t3.
  apply bind_ok_inv in H as (fi & t4 & H4 & H).
  pose proof (adds_nothing_id _ _ _ _ (find_file_input_in_adds _ _) H4) as ->.
  destruct fi as [[el sel]|]; cbv beta iota in H.
  2:{ apply bind_ok_inv in H as (u5 & t5 & H5 & H). unfold print in H5. injection H5 as _ <-.
      apply bind_ok_inv in H as (u6 & t6 & H6 & H). apply perform_ok_inv in H6. subst t6.
      apply ret_ok_inv in H as [-> ->].
      exists [Print MsgNoFileInput]. split; [rewrite <- !app_assoc; reflexivity|].
      repeat split; [left; split; reflexivity | constructor | simpl; lia]. }
  apply bind_ok_inv in H as (m & t5 & H5 & H). unfold multiple in H5. injection H5 as _ <-.
  apply bind_ok_inv in H as (u6 & t6 & H6 & H).
  assert (E6 : exists p, t6 = (((tr ++ [Launch (negb h)]) ++ [NewPage]) ++ [Goto URL]) ++ p /\
                         setfiles p = [] /\ fills p = []).
  { destruct m; [unfold ret in H6 | unfold print in H6]; injection H6 as _ <-;
      [exists [] | exists [Print MsgNoMultiple]]; rewrite ?app_nil_r; repeat split. }
  destruct E6 as (p & -> & Sp & Fp).
  apply bind_ok_inv in H as (rs & t7 & H7 & H).
  apply bind_ok_inv in H as (u8 & t8 & H8 & H). apply perform_ok_inv in H8. subst t8.
  apply ret_ok_inv in H as [-> ->].
  destruct m.
  - apply bind_ok_inv in H7 as (v1 & s1 & G1 & H7). unfold print in G1. injection G1 as _ <-.
    apply bind_ok_inv in H7 as (v2 & s2 & G2 & H7). apply perform_ok_inv in G2. subst s2.
    apply bind_ok_inv in H7 as (v3 & s3 & G3 & H7).
    destruct (fill_step _ _ _ _ _ _ G3) as (ev3 & -> & S3 & F3 & L3).
    assert (Hrest : adds (fun e => e = Press "Enter" \/ (exists b, e = Click b) \/
                                   e = Print MsgNoButton \/ is_wait e)
              (let* clicked := click_upload pg in
               (if clicked then ret tt else print MsgNoButton);;
               let* links := collect_result_links pg 120000 in
               ret links)).
    { apply adds_bind.
      { eapply adds_weaken; [|apply click_upload_in_adds]. intros e [He|He]; auto. }
      intros clicked. apply adds_bind.
      { destruct clicked; [apply adds_ret | apply adds_print; auto]. }
      intros _. apply adds_bind; [|intros; apply adds_ret].
      eapply adds_weaken; [|apply poll_adds]. auto. }
    destruct (Hrest _ _ _ H7) as (evr & -> & Fr).
    assert (Sr : setfiles evr = [] /\ fills evr = []).
    { split; [apply (setfiles_none (fun e => e = Press "Enter" \/ (exists b, e = Click b) \/
                                   e = Print MsgNoButton \/ is_wait e))
             |apply (fills_none (fun e => e = Press "Enter" \/ (exists b, e = Click b) \/
                                   e = Print MsgNoButton \/ is_wait e))];
        try exact Fr; intros e [->|[[b ->]|[->|He]]]; try reflexivity;
        destruct e; try destruct He; reflexivity. }
    exists (p ++ [Print (MsgUploadingAll (List.length fs) sel); SetFiles el fs] ++ ev3 ++ evr).
    split; [rewrite <- !app_assoc; reflexivity|].
    rewrite !setfiles_app, !fills_app, Sp, Fp, S3, (proj1 Sr), (proj2 Sr).
    cbn [setfiles fills app]. rewrite !app_nil_r.
    split; [right; left; reflexivity|]. split.
    + eapply Forall_impl; [|exact F3]. intros s' [Ea Eb]. split; [exact Ea|].
      subst a. apply truthy_nonempty, Eb.
    + destruct (truthy a); lia.
  - destruct (upload_sequential_trace _ _ _ _ _ _ _ _ _ _ (le_n 1) H7)
      as (ev & -> & Sev & Fev & Lev).
    exists (p ++ ev). split; [rewrite <- !app_assoc; reflexivity|].
    rewrite setfiles_app, fills_app, Sp, Fp, Sev. cbn [app].
    split; [right; right; reflexivity|]. split; [exact Fev | exact Lev].
Qed.

(** ** main *)

Lemma systems_app l1 l2 : systems (l1 ++ l2) = systems l1 ++ systems l2.
Proof. induction l1 as [|[] l1 IH]; simpl; rewrite ?IH; reflexivity. Qed.

Lemma printed_links_app l1 l2 :
  printed_links (l1 ++ l2) = printed_links l1 ++ printed_links l2.
Proof.
  induction l1 as [|e l1 IH]; [reflexivity|].
  destruct e as [m| |]; [destruct m|..]; simpl; rewrite IH; reflexivity.
Qed.

Lemma map_links_printed ls :
  printed_links (map (fun l => MPrint (MsgLink l)) ls) = ls /\
  systems (map (fun l => MPrint (MsgLink l)) ls) = [] /\
  ~ In (MPrint MsgFallback) (map (fun l => MPrint (MsgLink l)) ls).
Proof.
  induction ls as [|l ls (H1 & H2 & H3)]; [split; [reflexivity | split; [reflexivity | intros []]]|].
  simpl. rewrite H1, H2. repeat split. intros [E|E]; [discriminate E | exact (H3 E)].
Qed.

Lemma open_events_printed args env_browser links :
  printed_links (open_events args env_browser links) = [] /\
  ~ In (MPrint MsgFallback) (open_events args env_browser links) /\
  (open_ args = false -> open_events args env_browser links = []).
Proof.
  unfold open_events. split; [|split].
  - destruct (_ && _); [destruct (browser_cmd env_browser)|]; reflexivity.
  - destruct (_ && _); [destruct (browser_cmd env_browser)|]; simpl;
      intuition discriminate.
  - intros ->. reflexivity.
Qed.

Lemma loop_no_open_systems args env_browser up files tr is acc ev r :
  loop_shape args env_browser up files tr is acc ev r ->
  open_ args = false -> systems ev = [].
Proof.
  induction 1 as [tr acc|tr i is acc e Hup|tr i is acc links ev r Hup Hs IH];
    intros Ho; [reflexivity | reflexivity|].
  destruct (open_events_printed args env_browser links) as (_ & _ & Hn).
  cbn [app systems]. rewrite systems_app, (Hn Ho), (IH Ho). reflexivity.
Qed.

Lemma final_events_systems (all : list string) :
  systems (match all with
           | [] => [MPrint MsgNoLinks]
           | _ :: _ => MPrint MsgCollected :: map (fun l => MPrint (MsgLink l)) all
           end) = [].
Proof. destruct all as [|a all']; [reflexivity|]. apply (map_links_printed (a :: all')). Qed.

Lemma py_slice_zero_zero {A} (l : list A) : py_slice l 0 0 = [].
Proof.
  unfold py_slice, slice_bound. cbn [Z.ltb Z.compare].
  rewrite Z.min_l by lia. reflexivity.
Qed.

Lemma py_slice_neg {A} (l : list A) (k : Z) :
  (k < 0)%Z -> py_slice l 0 k = firstn (Z.to_nat (Z.of_nat (List.length l) + k)) l.
Proof.
  intros Hk. unfold py_slice, slice_bound. cbn [Z.ltb Z.compare].
  replace (k <? 0)%Z with true by (symmetry; apply Z.ltb_lt, Hk).
  rewrite Z.min_l by lia. cbn [skipn Z.to_nat].
  f_equal. lia.
Qed.

(** ** Rounds of the poll loop *)

Lemma set_add_self h found : In h (set_add h found).
Proof.
  unfold set_add. destruct (existsb (String.eqb h) found) eqn:E.
  - apply existsb_eqb_In, E.
  - apply in_or_app. right. left. reflexivity.
Qed.

Lemma set_add_incl h found x : In x found -> In x (set_add h found).
Proof.
  intros Hx. unfold set_add. destruct (existsb _ found); [exact Hx|].
  apply in_or_app. left. exact Hx.
Qed.

(** The loop over the result anchors only reads: it keeps the trace, never
    raises, keeps what was found and adds every link-shaped href it reads. *)
Lemma gather_reads pg anchors found tr :
  exists v, gather pg anchors found tr = (Ok v, tr) /\
    (forall x, In x found -> In x v) /\
    (forall a h, In a anchors -> get_attribute pg tr a "href" = Ok (Some h) ->
                 is_link h = true -> In h v).
Proof.
  revert found. induction anchors as [|a anchors IH]; intros found.
  - exists found. split; [reflexivity|]. split; [intros x Hx; exact Hx | intros a h []].
  - cbn [gather].
    assert (Hstep : exists f', try_ (let* href := attr pg a "href" in
                           match href with
                           | Some h => if truthy href && is_link h
                                       then ret (set_add h found)
                                       else ret found
                           | None => ret found
                           end) (ret found) tr = (Ok f', tr) /\
                    (forall x, In x found -> In x f') /\
                    (forall h, get_attribute pg tr a "href" = Ok (Some h) ->
                               is_link h = true -> In h f')).
    { unfold try_, bind, attr, ret.
      destruct (get_attribute pg tr a "href") as [[h|]|e] eqn:E.
      - destruct (truthy (Some h) && is_link h) eqn:B.
        + exists (set_add h found). split; [reflexivity|].
          split; [apply set_add_incl|].
          intros h' Eh' _. injection Eh' as <-. apply set_add_self.
        + exists found. split; [reflexivity|]. split; [intros x Hx; exact Hx|].
          intros h' Eh' Hl. injection Eh' as <-. rewrite Hl, andb_true_r in B.
          destruct h as [|c h]; [|discriminate B].
          discriminate Hl.
      - exists found. split; [reflexivity|]. split; [intros x Hx; exact Hx|].
        intros h' Eh'. discriminate Eh'.
      - exists found. split; [reflexivity|]. split; [intros x Hx; exact Hx|].
        intros h' Eh'. discriminate Eh'. }
    destruct Hstep as (f' & Ef & Hinc & Hnew).
    rewrite (bind_step _ _ _ _ _ Ef).
    destruct (IH f') as (v & Ev & Hinc' & Hnew').
    exists v. split; [exact Ev|]. split; [intros x Hx; apply Hinc', Hinc, Hx|].
    intros a' h [<-|Ha'] Eh Hl; [apply Hinc', (Hnew h Eh Hl)|].
    exact (Hnew' a' h Ha' Eh Hl).
Qed.

(** A round in which the page shows no link adds one wait of [STEP] and
    goes on with the next round. *)
Lemma poll_quiet_step pg T fuel e tr :
  round_quiet pg tr -> (e < T)%Z ->
  poll pg T (S fuel) e [] tr = poll pg T fuel (e + STEP) [] (tr ++ [Wait STEP]).
Proof.
  intros [(anchors & Ea & Hall) [Halb Hw]] HeT. cbn [poll].
  replace (e <? T)%Z with true by (symmetry; apply Z.ltb_lt, HeT).
  erewrite bind_step by (unfold qsa; rewrite Ea; reflexivity).
  erewrite bind_step by (apply gather_quiet, Hall).
  destruct Halb as [Eal | (el & Eal & Eh)].
  - erewrite bind_step by (unfold qs; rewrite Eal; reflexivity).
    erewrite bind_step by reflexivity. cbv beta iota.
    erewrite bind_step by (apply perform_ok, Hw). reflexivity.
  - erewrite bind_step by (unfold qs; rewrite Eal; reflexivity).
    erewrite bind_step.
    2:{ unfold bind, attr. destruct Eh as [Eh|Eh]; rewrite Eh; reflexivity. }
    cbv beta iota.
    erewrite bind_step by (apply perform_ok, Hw). reflexivity.
Qed.

(** After [k] rounds without a link, the [k]-th round (counting from 0)
    starts with [elapsed = k * STEP] on the trace extended by [k] waits. *)
Lemma collect_after_quiet pg T tr k :
  (Z.of_nat k * STEP < T)%Z ->
  (forall j, (j < k)%nat -> round_quiet pg (tr ++ repeat (Wait STEP) j)) ->
  collect_result_links pg T tr =
  poll pg T (S (Z.to_nat (T / STEP) - k)) (Z.of_nat k * STEP)%Z []
       (tr ++ repeat (Wait STEP) k).
Proof.
  induction k as [|k IH]; intros HT Hq.
  - unfold collect_result_links. rewrite Nat.sub_0_r, app_nil_r. reflexivity.
  - assert (Hk : (Z.of_nat (S k) <= T / STEP)%Z)
      by (apply Z.div_le_lower_bound; unfold STEP in *; lia).
    rewrite IH by ((unfold STEP in *; lia) || (intros j Hj; apply Hq; lia)).
    replace (Z.to_nat (T / STEP) - k)%nat with (S (Z.to_nat (T / STEP) - S k)) by lia.
    rewrite poll_quiet_step by ((apply Hq; lia) || (unfold STEP in *; lia)).
    replace (Z.of_nat k * STEP + STEP)%Z with (Z.of_nat (S k) * STEP)%Z by lia.
    rewrite <- app_assoc.
    replace (repeat (Wait STEP) (S k)) with (repeat (Wait STEP) k ++ [Wait STEP])
      by (replace (S k) with (k + 1)%nat by lia; rewrite repeat_app; reflexivity).
    reflexivity.
Qed.

(** In a round, an exception of the result-anchor query, of the album
    query or of the album anchor's href escapes the loop at once. *)
Lemma poll_round_raises pg T fuel e found tr x :
  (e < T)%Z ->
  (query_selector_all pg tr RESULT_LINK_SELECTOR = Exc x \/
   (exists anchors, query_selector_all pg tr RESULT_LINK_SELECTOR = Ok anchors /\
     (query_selector pg tr ALBUM_LINK_SELECTOR = Exc x \/
      exists el, query_selector pg tr ALBUM_LINK_SELECTOR = Ok (Some el) /\
                 get_attribute pg tr el "href" = Exc x))) ->
  poll pg T (S fuel) e found tr = (Exc x, tr).
Proof.
  intros HeT Hx. cbn [poll].
  replace (e <? T)%Z with true by (symmetry; apply Z.ltb_lt, HeT).
  destruct Hx as [Ea | (anchors & Ea & Hx)].
  { apply bind_exc. unfold qsa. rewrite Ea. reflexivity. }
  erewrite bind_step by (unfold qsa; rewrite Ea; reflexivity).
  destruct (gather_reads pg anchors found tr) as (v & Ev & _).
  rewrite (bind_step _ _ _ _ _ Ev).
  destruct Hx as [Eq | (el & Eq & Eh)].
  - apply bind_exc. unfold qs. rewrite Eq. reflexivity.
  - erewrite bind_step by (unfold qs; rewrite Eq; reflexivity).
    apply bind_exc. apply bind_exc. unfold attr. rewrite Eh. reflexivity.
Qed.

(** A round that reads a link-shaped href from a result anchor ends the
    loop, if it returns, with that link, after at most one more wait. *)
Lemma poll_round_links pg T fuel e tr anchors l tr' :
  (e < T)%Z ->
  query_selector_all pg tr RESULT_LINK_SELECTOR = Ok anchors ->
  poll pg T (S fuel) e [] tr = (Ok l, tr') ->
  forall a h, In a anchors -> get_attribute pg tr a "href" = Ok (Some h) ->
    is_link h = true -> In h l /\ (tr' = tr \/ tr' = tr ++ [Wait 2000]).
Proof.
  intros HeT Ea H a h Ha Eh Hl. cbn [poll] in H.
  replace (e <? T)%Z with true in H by (symmetry; apply Z.ltb_lt, HeT).
  erewrite bind_step in H by (unfold qsa; rewrite Ea; reflexivity).
  destruct (gather_reads pg anchors [] tr) as (v & Ev & _ & Hnew).
  rewrite (bind_step _ _ _ _ _ Ev) in H.
  pose proof (Hnew a h Ha Eh Hl) as Hv.
  assert (Hnone : (match v with
                   | _ :: _ => perform pg (Wait 2000);; ret v
                   | [] => perform pg (Wait STEP);; poll pg T fuel (e + STEP)%Z v
                   end) tr = (Ok l, tr') -> In h l /\ (tr' = tr \/ tr' = tr ++ [Wait 2000])).
  { destruct v as [|y v']; [destruct Hv|].
    intros Hw. inv_bind Hw. apply ret_ok_inv in Hw as [-> ->].
    destruct a0. apply perform_ok_inv in Hm as ->.
    split; [exact Hv | right; reflexivity]. }
  destruct (query_selector pg tr ALBUM_LINK_SELECTOR) as [[el|]|x] eqn:Eq.
  - erewrite bind_step in H by (unfold qs; rewrite Eq; reflexivity).
    destruct (get_attribute pg tr el "href") as [[h'|]|x] eqn:Eh'.
    + destruct (truthy (Some h')) eqn:B.
      * erewrite bind_step in H
          by (erewrite bind_step by (unfold attr; rewrite Eh'; reflexivity);
              cbv beta iota; rewrite B; reflexivity).
        apply ret_ok_inv in H as [E1 E2]. subst l tr'.
        split; [apply set_add_incl, Hv | left; reflexivity].
      * erewrite bind_step in H
          by (erewrite bind_step by (unfold attr; rewrite Eh'; reflexivity);
              cbv beta iota; rewrite B; reflexivity).
        exact (Hnone H).
    + erewrite bind_step in H
        by (erewrite bind_step by (unfold attr; rewrite Eh'; reflexivity); reflexivity).
      exact (Hnone H).
    + rewrite (bind_exc _ _ tr x tr) in H; [discriminate H|].
      apply bind_exc. unfold attr. rewrite Eh'. reflexivity.
  - erewrite bind_step in H by (unfold qs; rewrite Eq; reflexivity).
    erewrite bind_step in H by reflexivity.
    exact (Hnone H).
  - rewrite (bind_exc _ _ tr x tr) in H; [discriminate H|].
    unfold qs. rewrite Eq. reflexivity.
Qed.

(** A round that finds the album anchor with a non-empty href returns at
    once, with that href among the links. *)
Lemma poll_round_album pg T fuel e found tr anchors el h :
  (e < T)%Z ->
  query_selector_all pg tr RESULT_LINK_SELECTOR = Ok anchors ->
  query_selector pg tr ALBUM_LINK_SELECTOR = Ok (Some el) ->
  get_attribute pg tr el "href" = Ok (Some h) -> h <> EmptyString ->
  exists l, poll pg T (S fuel) e found tr = (Ok l, tr) /\ In h l.
Proof.
  intros HeT Ea Eq Eh Hh. cbn [poll].
  replace (e <? T)%Z with true by (symmetry; apply Z.ltb_lt, HeT).
  erewrite bind_step by (unfold qsa; rewrite Ea; reflexivity).
  destruct (gather_reads pg anchors found tr) as (v & Ev & _).
  rewrite (bind_step _ _ _ _ _ Ev).
  erewrite bind_step by (unfold qs; rewrite Eq; reflexivity).
  assert (B : truthy (Some h) = true) by (destruct h; [exfalso; apply Hh; reflexivity | reflexivity]).
  erewrite bind_step.
  2:{ erewrite bind_step by (unfold attr; rewrite Eh; reflexivity).
      cbv beta iota. rewrite B. reflexivity. }
  exists (set_add h v). split; [reflexivity | apply set_add_self].
Qed.

(** ** Where main's trace records a call of upload_files *)

Lemma uploads_ne p fs a h post : uploads (p ++ MUpload fs a h :: post) <> [].
Proof. rewrite uploads_app. destruct (uploads p); discriminate. Qed.

(** A call recorded in [l1 ++ l2], where [l2] records none, lies in [l1]. *)
Lemma split_before_tail l1 l2 p fs a h post :
  uploads l2 = [] -> p ++ MUpload fs a h :: post = l1 ++ l2 ->
  exists q, l1 = p ++ MUpload fs a h :: q /\ post = q ++ l2.
Proof.
  intros Hl2. revert p. induction l1 as [|y l1 IH]; intros p E.
  - exfalso. apply (uploads_ne p fs a h post). rewrite E. exact Hl2.
  - destruct p as [|z p]; cbn [app] in E; injection E as <- E.
    + exists l1. split; [reflexivity | exact E].
    + destruct (IH p E) as (q & -> & ->). exists q. split; reflexivity.
Qed.

(** A call recorded in [l1 ++ l2], where [l1] records none, lies in [l2]. *)
Lemma split_after_head l1 l2 p fs a h post :
  uploads l1 = [] -> p ++ MUpload fs a h :: post = l1 ++ l2 ->
  exists q, p = l1 ++ q /\ l2 = q ++ MUpload fs a h :: post.
Proof.
  revert p. induction l1 as [|y l1 IH]; intros p Hl1 E.
  - exists p. split; [reflexivity | symmetry; exact E].
  - destruct p as [|z p]; cbn [app] in E; injection E as Ey E.
    + subst y. discriminate Hl1.
    + subst z. assert (Hl1' : uploads l1 = []) by (destruct y; cbn [uploads] in Hl1;
        [exact Hl1 | discriminate Hl1 | exact Hl1]).
      destruct (IH p Hl1' E) as (q & -> & ->). exists q. split; reflexivity.
Qed.

Lemma open_events_one args env_browser links :
  open_ args = true -> links <> [] ->
  open_events args env_browser links = [open_event env_browser links].
Proof.
  intros Ho Hl. unfold open_events, open_event. rewrite Ho.
  destruct links as [|x links]; [contradiction Hl; reflexivity|].
  cbn [andb List.length Nat.eqb negb]. destruct (browser_cmd env_browser); reflexivity.
Qed.

Lemma open_events_systems_none args env_browser links :
  browser_cmd env_browser = None -> systems (open_events args env_browser links) = [].
Proof.
  intros Hb. unfold open_events. destruct (_ && _); [rewrite Hb|]; reflexivity.
Qed.

(** In the fallback loop, with --open, the call of upload_files for a batch
    that answers links is followed at once by the opening of its first link. *)
Lemma loop_open_after args env_browser up files tr0 is acc ev r :
  loop_shape args env_browser up files tr0 is acc ev r -> open_ args = true ->
  forall p fs a h post links, ev = p ++ MUpload fs a h :: post ->
  up (tr0 ++ p) fs a h = Ok links -> links <> [] ->
  exists post', post = open_event env_browser links :: post'.
Proof.
  induction 1 as [tr acc|tr i is acc e Hup|tr i is acc links0 ev r Hup Hs IH];
    intros Ho p fs a h post links E Eu Hl.
  - destruct p; discriminate E.
  - destruct p as [|y [|z p]]; cbn [app] in E; unfold batch_message in E.
    + discriminate E.
    + injection E; intros; subst. unfold batch_message in Hup. rewrite Hup in Eu.
      discriminate Eu.
    + injection E; intros E3; intros; destruct p; discriminate E3.
  - destruct p as [|y [|z p]]; cbn [app] in E; unfold batch_message in E.
    + discriminate E.
    + injection E; intros; subst. unfold batch_message in Hup. rewrite Hup in Eu.
      injection Eu as ->.
      rewrite (open_events_one _ _ _ Ho Hl). exists ev. reflexivity.
    + injection E; intros E3 Ez Ey. subst y z.
      destruct (open_events_obs args env_browser links0) as (Hno & _ & _).
      destruct (split_after_head _ _ _ _ _ _ _ Hno (eq_sym E3)) as (q & -> & Ev).
      apply (IH Ho q fs a h post links Ev); [|exact Hl].
      rewrite <- Eu, <- !app_assoc. reflexivity.
Qed.

Lemma loop_systems_none args env_browser up files tr is acc ev r :
  loop_shape args env_browser up files tr is acc ev r ->
  browser_cmd env_browser = None -> systems ev = [].
Proof.
  induction 1 as [tr acc|tr i is acc e Hup|tr i is acc links ev r Hup Hs IH];
    intros Hb; [reflexivity | reflexivity|].
  cbn [app systems]. rewrite systems_app, open_events_systems_none, (IH Hb) by exact Hb.
  reflexivity.
Qed.

(** The three events main records before its fallback loop. *)
Lemma after_fallback_prefix n b0 a0 h0 rest pre x post :
  [MPrint (MsgFound n); MUpload b0 a0 h0; MPrint MsgFallback] ++ rest = pre ++ x :: post ->
  In (MPrint MsgFallback) pre ->
  exists p, pre = [MPrint (MsgFound n); MUpload b0 a0 h0; MPrint MsgFallback] ++ p /\
            rest = p ++ x :: post.
Proof.
  intros E Hin. destruct pre as [|y1 [|y2 [|y3 p]]]; cbn [app] in E.
  - destruct Hin.
  - injection E as <- _. destruct Hin as [E'|[]]. discriminate E'.
  - injection E as <- <- _. destruct Hin as [E'|[E'|[]]]; discriminate E'.
  - injection E as <- <- <- E. exists p. split; [reflexivity | exact E].
Qed.

(** ** Claim theorems *)

(** C2: the dedupe step of upload_files keeps every distinct URL of the
    collected list exactly once (no repetition, same URLs), in the order of
    first occurrence: of two URLs of the result, the earlier one first
    occurs earlier in the collected list.  Hence every list upload_files
    returns is free of repetitions. *)
Theorem upload_files_dedup_first_seen :
  forall results : list string,
    NoDup (dedup results) /\
    (forall x, In x (dedup results) <-> In x results) /\
    (forall i j x y, i < j ->
       nth_error (dedup results) i = Some x ->
       nth_error (dedup results) j = Some y ->
       first_index x results < first_index y results) /\
    (forall pg fs a h tr l tr',
       upload_files pg fs a h tr = (Ok l, tr') -> NoDup l).
Proof.
  intros results. split; [apply dedup_NoDup|]. split; [apply dedup_In|].
  split; [apply dedup_order|].
  intros pg fs a h tr l tr' H.
  destruct (upload_files_result _ _ _ _ _ _ _ H) as [->|[rs ->]].
  - constructor.
  - apply dedup_NoDup.
Qed.

Lemma upload_files_dedup_first_seen_witness :
  NoDup (dedup ["u"; "v"; "u"; "w"; "v"]) /\
  dedup ["u"; "v"; "u"; "w"; "v"] = ["u"; "v"; "w"] /\
  first_index "v" ["u"; "v"; "u"; "w"; "v"] < first_index "w" ["u"; "v"; "u"; "w"; "v"].
Proof.
  destruct (upload_files_dedup_first_seen ["u"; "v"; "u"; "w"; "v"]) as (H1 & _ & H3 & _).
  split; [exact H1|]. split; [reflexivity|].
  apply (H3 1 2); [lia | reflexivity | reflexivity].
Defined.

(** C7: when no selector finds a file input (each lookup answers nothing
    or raises), upload_files prints the error message, closes the browser,
    sets no file and clicks nothing, and returns the empty list. *)
Theorem upload_files_no_file_input (pg : Page) (fs : list string)
        (album_title : option string) (hf : bool) (tr : trace) :
  (forall tr0 sel, In sel FILE_INPUT_SELECTORS ->
     query_selector pg tr0 sel = Ok None \/ exists e, query_selector pg tr0 sel = Exc e) ->
  (forall tr0 ev, ev = Launch (negb hf) \/ ev = NewPage \/ ev = Goto URL \/ ev = Close ->
     act pg tr0 ev = Ok tt) ->
  upload_files pg fs album_title hf tr =
  (Ok [], tr ++ [Launch (negb hf); NewPage; Goto URL; Print MsgNoFileInput; Close]).
Proof.
  intros Hnone Hact. unfold upload_files.
  erewrite bind_step by (apply perform_ok, Hact; tauto).
  erewrite bind_step by (apply perform_ok, Hact; tauto).
  erewrite bind_step by (apply perform_ok, Hact; tauto).
  erewrite bind_step by (apply find_file_input_in_none, Hnone).
  cbv beta iota.
  erewrite bind_step by reflexivity.
  erewrite bind_step by (apply perform_ok, Hact; tauto).
  unfold ret. rewrite <- !app_assoc. reflexivity.
Qed.

Lemma upload_files_no_file_input_witness :
  upload_files quiet_page ["img/a.avif"] (Some "Quiz") false [] =
  (Ok [], [Launch true; NewPage; Goto URL; Print MsgNoFileInput; Close]).
Proof.
  apply (upload_files_no_file_input quiet_page ["img/a.avif"] (Some "Quiz") false []).
  - intros tr0 sel _. left. reflexivity.
  - intros tr0 ev _. reflexivity.
Defined.

(** C4 (code bug): find_file_input, click_upload and the album-title
    probing swallow every exception of a selector lookup (and of the click,
    fill or key press that follows it) and go on, so they never raise; the
    loop over the result anchors swallows an exception of each anchor's
    get_attribute and never raises.  But in every round of the poll loop,
    the first as well as any round reached after rounds that found no link,
    an exception of the result-anchor query_selector_all, of the
    album-anchor query_selector or of the album anchor's get_attribute
    propagates out of collect_result_links. *)
Theorem lookups_guarded_except_poll :
  (forall pg tr, exists v tr', find_file_input pg tr = (Ok v, tr')) /\
  (forall pg tr, exists v tr', click_upload pg tr = (Ok v, tr')) /\
  (forall pg title tr, exists v tr', fill_album_title pg title tr = (Ok v, tr')) /\
  (forall pg anchors found tr, exists v, gather pg anchors found tr = (Ok v, tr)) /\
  (forall pg T tr k, (Z.of_nat k * STEP < T)%Z ->
     (forall j, (j < k)%nat -> round_quiet pg (tr ++ repeat (Wait STEP) j)) ->
     let tk := tr ++ repeat (Wait STEP) k in
     (forall x, query_selector_all pg tk RESULT_LINK_SELECTOR = Exc x ->
        collect_result_links pg T tr = (Exc x, tk)) /\
     (forall anchors x, query_selector_all pg tk RESULT_LINK_SELECTOR = Ok anchors ->
        query_selector pg tk ALBUM_LINK_SELECTOR = Exc x ->
        collect_result_links pg T tr = (Exc x, tk)) /\
     (forall anchors el x, query_selector_all pg tk RESULT_LINK_SELECTOR = Ok anchors ->
        query_selector pg tk ALBUM_LINK_SELECTOR = Ok (Some el) ->
        get_attribute pg tk el "href" = Exc x ->
        collect_result_links pg T tr = (Exc x, tk))).
Proof.
  split; [intros; apply find_file_input_in_ok|].
  split; [intros; apply click_upload_in_ok|].
  split; [intros; apply fill_album_title_in_ok|].
  split; [intros pg anchors found tr;
          destruct (gather_reads pg anchors found tr) as (v & Ev & _); exists v; exact Ev|].
  intros pg T tr k HT Hq tk.
  assert (HeT : (Z.of_nat k * STEP < T)%Z) by exact HT.
  pose proof (collect_after_quiet pg T tr k HT Hq) as Hc. fold tk in Hc.
  split; [|split].
  - intros x Ea. rewrite Hc. apply poll_round_raises; [exact HeT | left; exact Ea].
  - intros anchors x Ea Eq. rewrite Hc.
    apply poll_round_raises; [exact HeT | right; exists anchors; split; [exact Ea | left; exact Eq]].
  - intros anchors el x Ea Eq Eh. rewrite Hc.
    apply poll_round_raises; [exact HeT|].
    right. exists anchors. split; [exact Ea|]. right. exists el. split; [exact Eq | exact Eh].
Qed.

(** On [detached_album_page] the first round finds the album anchor with
    an empty href and waits; in the second round reading the href raises,
    and collect_result_links raises with it. *)
Lemma lookups_guarded_except_poll_witness :
  collect_result_links detached_album_page 120000 [] =
  (Exc (Error "Element is not attached to the DOM"), [Wait 2000]).
Proof.
  destruct lookups_guarded_except_poll as (_ & _ & _ & _ & H).
  assert (Hq : forall j, (j < 1)%nat ->
                 round_quiet detached_album_page ([] ++ repeat (Wait STEP) j)).
  { intros j Hj. destruct j as [|j]; [|lia].
    split; [exists []; split; [reflexivity | constructor]|].
    split; [right; exists 0%nat; split; [reflexivity | right; reflexivity] | reflexivity]. }
  destruct (H detached_album_page 120000%Z [] 1%nat ltac:(unfold STEP; lia) Hq) as (_ & _ & H3).
  apply (H3 [] 0%nat); reflexivity.
Defined.

(** C5: collect_result_links polls every [STEP] = 2000 ms of its elapsed
    counter.  If the page shows no link in any round until the timeout, it
    returns the empty list without raising, after one wait per round, that
    is ceil(timeout_ms / 2000) rounds.  What it returns are always links it
    found: non-empty hrefs read from elements of the page.  And the polling
    stops at the first round that finds a link: after [k] rounds without a
    link, a round whose result anchors show link-shaped hrefs returns (if
    nothing unguarded raises) a list holding every one of them, after at
    most one more wait; a round that finds the album anchor with a
    non-empty href returns at once, with that href in the list. *)
Theorem collect_result_links_timeout (pg : Page) (T : Z) (tr : trace) :
  ((forall tr0, round_quiet pg tr0) ->
   collect_result_links pg T tr =
   (Ok [], tr ++ repeat (Wait STEP) (Z.to_nat ((T + STEP - 1) / STEP)))) /\
  (forall l tr', collect_result_links pg T tr = (Ok l, tr') ->
     Forall (href_from_page pg) l) /\
  (forall k, (Z.of_nat k * STEP < T)%Z ->
     (forall j, (j < k)%nat -> round_quiet pg (tr ++ repeat (Wait STEP) j)) ->
     let tk := tr ++ repeat (Wait STEP) k in
     (forall anchors, query_selector_all pg tk RESULT_LINK_SELECTOR = Ok anchors ->
        forall l tr', collect_result_links pg T tr = (Ok l, tr') ->
        forall a h, In a anchors -> get_attribute pg tk a "href" = Ok (Some h) ->
          is_link h = true -> In h l /\ (tr' = tk \/ tr' = tk ++ [Wait 2000])) /\
     (forall anchors el h, query_selector_all pg tk RESULT_LINK_SELECTOR = Ok anchors ->
        query_selector pg tk ALBUM_LINK_SELECTOR = Ok (Some el) ->
        get_attribute pg tk el "href" = Ok (Some h) -> h <> EmptyString ->
        exists l, collect_result_links pg T tr = (Ok l, tk) /\ In h l)).
Proof.
  split; [|split].
  - intros Hq. unfold collect_result_links.
    replace (T + STEP - 1)%Z with (T - 0 + STEP - 1)%Z by lia.
    apply poll_quiet; [exact Hq|].
    destruct (Z.le_gt_cases T 0) as [HT|HT].
    + pose proof (ceil_step_nonpos (T - 0) ltac:(lia)). lia.
    + destruct (ceil_step_succ (T - 0) ltac:(lia)) as [Hc Hp]. rewrite Hc.
      assert ((T - 0 - 1) / STEP <= T / STEP)%Z
        by (apply Z.div_le_mono; unfold STEP; lia).
      lia.
  - intros l tr' H. exact (poll_hrefs _ _ _ _ _ _ _ _ H (Forall_nil _)).
  - intros k HT Hq tk.
    pose proof (collect_after_quiet pg T tr k HT Hq) as Hc. fold tk in Hc.
    split.
    + intros anchors Ea l tr' H. rewrite Hc in H.
      exact (poll_round_links _ _ _ _ _ _ _ _ HT Ea H).
    + intros anchors el h Ea Eq Eh Hh. rewrite Hc.
      exact (poll_round_album _ _ _ _ _ _ _ _ _ HT Ea Eq Eh Hh).
Qed.

Lemma collect_result_links_timeout_witness :
  collect_result_links quiet_page 120000 [] = (Ok [], repeat (Wait 2000) 60) /\
  exists l, collect_result_links (album_page true) 120000 [] = (Ok l, []) /\
            In "https://postimg.cc/gallery/quiz" l.
Proof.
  assert (Hq : forall tr0, round_quiet quiet_page tr0).
  { intros tr0. split; [exists []; split; [reflexivity | constructor]|].
    split; [left; reflexivity | reflexivity]. }
  split.
  - rewrite (proj1 (collect_result_links_timeout quiet_page 120000 []) Hq).
    reflexivity.
  - destruct (collect_result_links_timeout (album_page true) 120000 []) as (_ & _ & H).
    destruct (H 0%nat ltac:(unfold STEP; lia) ltac:(intros j Hj; lia)) as (_ & H2).
    apply (H2 [] 0%nat); [reflexivity | reflexivity | reflexivity | discriminate].
Defined.

(** C3: for a positive batch size, [range(0, len(files), batch_size)]
    succeeds and the groups [files[i : i + batch_size]] of the batch loop
    are ceil(N / batch_size) consecutive pieces of the N files that put
    them back together in order, each of at most batch_size files; when
    the files are distinct (as paths found on disk are), each file lies in
    exactly one group. *)
Theorem batch_loop_partition (files : list string) (bs : Z) :
  (0 < bs)%Z ->
  exists is,
    py_range 0 (Z.of_nat (List.length files)) bs = Ok is /\
    List.concat (map (batch_of files bs) is) = files /\
    Z.of_nat (List.length (map (batch_of files bs) is)) =
      ((Z.of_nat (List.length files) + bs - 1) / bs)%Z /\
    Forall (fun g => (Z.of_nat (List.length g) <= bs)%Z) (map (batch_of files bs) is) /\
    (NoDup files -> forall x, In x files ->
       List.length (filter (fun g => existsb (String.eqb x) g)
                           (map (batch_of files bs) is)) = 1%nat).
Proof.
  intros Hbs. eexists. split; [apply py_range_pos, Hbs|].
  assert (Hc : List.concat (map (batch_of files bs)
                 (range_up (Z.to_nat (Z.of_nat (List.length files) - 0)) 0
                           (Z.of_nat (List.length files)) bs)) = files)
    by (rewrite batches_concat; [reflexivity | exact Hbs | lia | lia]).
  split; [exact Hc|].
  split.
  { rewrite length_map, batches_length by (exact Hbs || lia).
    rewrite Z.sub_0_r. apply Z.max_r, Z.div_pos; lia. }
  split; [apply batches_bounded; exact Hbs|].
  intros Hnd x Hx. apply groups_exactly_one; rewrite Hc; assumption.
Qed.

Lemma batch_loop_partition_witness :
  map (batch_of ["a"; "b"; "c"; "d"; "e"] 2) [0; 2; 4]%Z = [["a"; "b"]; ["c"; "d"]; ["e"]] /\
  exists is, py_range 0 5 2 = Ok is /\
    List.concat (map (batch_of ["a"; "b"; "c"; "d"; "e"] 2) is) = ["a"; "b"; "c"; "d"; "e"].
Proof.
  split; [reflexivity|].
  destruct (batch_loop_partition ["a"; "b"; "c"; "d"; "e"] 2 ltac:(lia))
    as (is & Hr & Hc & _).
  exists is. split; [exact Hr | exact Hc].
Defined.

(** C10: in the fallback loop, the album title of --album goes to the
    call of upload_files for the first batch only (the one at index 0);
    every later batch is uploaded with no album title. *)
Theorem fallback_album_first_batch_only args env_browser fs up r tr :
  main args env_browser fs up = (r, tr) ->
  forall k a, nth_error (upload_albums (after_fallback tr)) k = Some a ->
  a = if (k =? 0)%nat then album args else None.
Proof.
  intros H k a Hk.
  destruct (main_cases _ _ _ _ _ _ H)
    as [[(e & _ & _ & ->)|[(_ & _ & ->)|(files & e & _ & _ & _ & _ & ->)]]
       |[(files & l & ls & _ & _ & _ & _ & ->)
        |(files & _ & _ & _ & [(e & _ & _ & ->)|(is & ev & rl & Er & Hs & Hcase)])]].
  - destruct k; discriminate Hk.
  - destruct k; discriminate Hk.
  - destruct k; discriminate Hk.
  - rewrite after_fallback_app in Hk. cbn [existsb is_fallback orb] in Hk.
    rewrite after_fallback_none in Hk; [destruct k; discriminate Hk|].
    apply Forall_app. split; [apply map_links_obs|].
    destruct (open_ args); [|constructor].
    unfold open_events. destruct (_ && _); [destruct (browser_cmd env_browser)|];
      repeat constructor.
  - destruct k; discriminate Hk.
  - assert (Hev : exists fin, tr = [MPrint (MsgFound (List.length files));
                MUpload (py_slice files 0 (batch_size args)) (album args) (headful args);
                MPrint MsgFallback] ++ ev ++ fin /\ upload_albums fin = []).
    { destruct Hcase as [(e & _ & _ & ->)|(all & _ & _ & ->)].
      - exists []. rewrite app_nil_r. split; reflexivity.
      - eexists. split; [reflexivity|]. apply final_events_obs. }
    destruct Hev as (fin & -> & Hfin).
    rewrite after_fallback_app in Hk. cbn [existsb is_fallback orb after_fallback app] in Hk.
    rewrite upload_albums_app, Hfin, app_nil_r in Hk.
    destruct (loop_albums _ _ _ _ _ _ _ _ _ Hs k a Hk) as (i & Hi & ->).
    unfold batch_album. rewrite (range_index_zero _ _ _ _ _ (Nat2Z.is_nonneg _) Er Hi).
    reflexivity.
Qed.

Lemma fallback_album_first_batch_only_witness :
  upload_albums (after_fallback (snd (main (photos_args 1 false) None photos_fs link_uploader)))
  = [Some "Quiz"; None; None] /\
  forall k a,
    nth_error (upload_albums (after_fallback
                 (snd (main (photos_args 1 false) None photos_fs link_uploader)))) k = Some a ->
    a = if (k =? 0)%nat then Some "Quiz" else None.
Proof.
  split; [vm_compute; reflexivity|].
  apply (fallback_album_first_batch_only (photos_args 1 false) None photos_fs link_uploader
           (fst (main (photos_args 1 false) None photos_fs link_uploader))).
  destruct (main _ _ _ _); reflexivity.
Defined.

(** C9: when the path given by --dir does not exist, collect_avif_files
    raises SystemExit with the message [Directory not found: <dir>], and
    main stops there, before printing anything or calling upload_files. *)
Theorem main_missing_dir args env_browser fs up :
  fs (dir args) = None ->
  collect_avif_files fs (dir args) = Exc (SystemExit ("Directory not found: " ++ dir args)) /\
  main args env_browser fs up = (Exc (SystemExit ("Directory not found: " ++ dir args)), []).
Proof.
  intros H. unfold main, collect_avif_files. rewrite H. split; reflexivity.
Qed.

Lemma main_missing_dir_witness :
  photos_fs "nowhere" = None /\
  main {| dir := "nowhere"; album := None; headful := false; open_ := false;
          batch_size := 500 |} None photos_fs link_uploader =
  (Exc (SystemExit "Directory not found: nowhere"), []).
Proof.
  split; [reflexivity|].
  apply (main_missing_dir {| dir := "nowhere"; album := None; headful := false;
                             open_ := false; batch_size := 500 |}
                          None photos_fs link_uploader).
  reflexivity.
Defined.

(** C1 (counterexample): the first upload attempt is made over the first
    batch_size files only; with three files and batches of one, it gets
    [photos/a.avif] alone. *)
Lemma first_attempt_is_first_batch :
  collect_avif_files photos_fs "photos" =
    Ok ["photos/a.avif"; "photos/b.avif"; "photos/c.avif"] /\
  hd_error (uploads (snd (main (photos_args 1 false) None photos_fs link_uploader))) =
    Some ["photos/a.avif"].
Proof. split; vm_compute; reflexivity. Qed.

(** C1 (amended): main first makes one upload attempt over
    files[:batch_size]; when it yields no links and batch_size is
    positive, main uploads the consecutive batches of at most batch_size
    files, which together give back the whole file list, one after the
    other in order; the calls of upload_files are exactly these. *)
Theorem main_fallback_batches args env_browser fs up files :
  (0 < batch_size args)%Z ->
  collect_avif_files fs (dir args) = Ok files ->
  files <> [] ->
  up [MPrint (MsgFound (List.length files))] (py_slice files 0 (batch_size args))
     (album args) (headful args) = Ok [] ->
  (forall t b a h, exists l, up t b a h = Ok l) ->
  exists tr is,
    main args env_browser fs up = (Ok tt, tr) /\
    py_range 0 (Z.of_nat (List.length files)) (batch_size args) = Ok is /\
    uploads tr = py_slice files 0 (batch_size args) ::
                 map (batch_of files (batch_size args)) is /\
    List.concat (map (batch_of files (batch_size args)) is) = files /\
    Forall (fun g => (Z.of_nat (List.length g) <= batch_size args)%Z)
           (map (batch_of files (batch_size args)) is).
Proof.
  intros Hbs Hc Hne Hup Hok.
  destruct (main args env_browser fs up) as [r tr] eqn:H.
  destruct (main_cases _ _ _ _ _ _ H)
    as [[(e & Ec & _ & _)|[(Ec & _ & _)|(files' & e & Ec & _ & Eu & _ & _)]]
       |[(files' & l & ls & Ec & _ & Eu & _ & _)
        |(files' & Ec & _ & _ & [(e & Er & _ & _)|(is & ev & rl & Er & Hs & Hcase)])]];
    rewrite Hc in Ec; try discriminate Ec; injection Ec as Ec; (subst files' || subst files).
  - exfalso. apply Hne. reflexivity.
  - rewrite Hup in Eu. discriminate Eu.
  - rewrite Hup in Eu. discriminate Eu.
  - rewrite py_range_pos in Er by exact Hbs. discriminate Er.
  - destruct Hcase as [(e & -> & _ & _)|(all & -> & -> & ->)].
    { destruct (loop_raise_from_up _ _ _ _ _ _ _ _ _ Hs) as (t & b & a & h & Ee).
      destruct (Hok t b a h) as (l & El). rewrite El in Ee. discriminate Ee. }
    exists (([MPrint (MsgFound (List.length files));
              MUpload (py_slice files 0 (batch_size args)) (album args) (headful args);
              MPrint MsgFallback] ++ ev ++
             match all with
             | [] => [MPrint MsgNoLinks]
             | _ :: _ => MPrint MsgCollected :: map (fun l => MPrint (MsgLink l)) all
             end)), is.
    split; [reflexivity|]. split; [exact Er|].
    rewrite py_range_pos in Er by exact Hbs. injection Er as <-.
    split.
    { rewrite !uploads_app, (loop_uploads_ok _ _ _ _ _ _ _ _ _ Hs).
      destruct (final_events_obs all) as (Hf & _). cbv zeta in Hf. rewrite Hf, app_nil_r.
      reflexivity. }
    split.
    + rewrite batches_concat; [reflexivity | exact Hbs | lia | lia].
    + apply batches_bounded; exact Hbs.
Qed.

Lemma main_fallback_batches_witness :
  exists tr is,
    main (photos_args 1 false) None photos_fs link_uploader = (Ok tt, tr) /\
    py_range 0 (Z.of_nat (List.length ["photos/a.avif"; "photos/b.avif"; "photos/c.avif"])) 1
      = Ok is /\
    uploads tr = py_slice ["photos/a.avif"; "photos/b.avif"; "photos/c.avif"] 0 1 ::
                 map (batch_of ["photos/a.avif"; "photos/b.avif"; "photos/c.avif"] 1) is /\
    List.concat (map (batch_of ["photos/a.avif"; "photos/b.avif"; "photos/c.avif"] 1) is)
      = ["photos/a.avif"; "photos/b.avif"; "photos/c.avif"] /\
    Forall (fun g => (Z.of_nat (List.length g) <= 1)%Z)
           (map (batch_of ["photos/a.avif"; "photos/b.avif"; "photos/c.avif"] 1) is).
Proof.
  apply (main_fallback_batches (photos_args 1 false) None photos_fs link_uploader
           ["photos/a.avif"; "photos/b.avif"; "photos/c.avif"]).
  - reflexivity.
  - vm_compute. reflexivity.
  - discriminate.
  - reflexivity.
  - intros t b a h. unfold link_uploader.
    destruct t as [|? [|? ?]]; eexists; reflexivity.
Defined.

(** C8 (counterexample): in the fallback loop every batch that produces
    links opens its own first link; with three batches of one file each
    and $BROWSER set to [xdg-open], main runs the browser three times. *)
Lemma fallback_opens_every_batch :
  systems (snd (main (photos_args 1 true) (Some "xdg-open") photos_fs link_uploader)) =
  [browser_command "xdg-open" "https://postimg.cc/photos/a.avif";
   browser_command "xdg-open" "https://postimg.cc/photos/b.avif";
   browser_command "xdg-open" "https://postimg.cc/photos/c.avif"].
Proof. vm_compute. reflexivity. Qed.

(** C8 (amended): with --open, in every run of main:
    - when main ends normally after printing at least one link, the first
      command it runs invokes $BROWSER on the first printed link when
      $BROWSER is set and nonempty, and it runs none when it is unset or
      empty;
    - when the first upload attempt answers links, main prints them and
      then opens the first one: the $BROWSER command, or the hint;
    - in the fallback loop, every call of upload_files that answers links
      is followed at once by the opening of the first of them, so main may
      invoke $BROWSER once per such batch;
    - when $BROWSER is unset or empty, main runs no command at all. *)
Theorem main_open_first_link args env_browser fs up r tr :
  main args env_browser fs up = (r, tr) ->
  open_ args = true ->
  (r = Ok tt -> forall l, first_link tr = Some l ->
     first_system tr = option_map (fun c => browser_command c l) (browser_cmd env_browser)) /\
  (forall pre fs' a h post links, tr = pre ++ MUpload fs' a h :: post ->
     ~ In (MPrint MsgFallback) pre -> up pre fs' a h = Ok links -> links <> [] ->
     post = MPrint MsgProduced :: map (fun l => MPrint (MsgLink l)) links
            ++ [open_event env_browser links]) /\
  (forall pre fs' a h post links, tr = pre ++ MUpload fs' a h :: post ->
     In (MPrint MsgFallback) pre -> up pre fs' a h = Ok links -> links <> [] ->
     exists post', post = open_event env_browser links :: post') /\
  (browser_cmd env_browser = None -> systems tr = []).
Proof.
  intros H Hopen.
  destruct (main_cases _ _ _ _ _ _ H)
    as [[(e & _ & Er & Etr)|[(_ & Er & Etr)|(files & e & _ & _ & Eup & Er & Etr)]]
       |[(files & l0 & ls & _ & _ & Eup & Er & Etr)
        |(files & _ & _ & Eup & Hcase)]].
  - (* collect_avif_files raised *)
    subst tr. split; [intros Hr; rewrite Er in Hr; discriminate Hr|].
    split; [intros pre ? ? ? post ? E; destruct pre; discriminate E|].
    split; [intros pre ? ? ? post ? E; destruct pre; discriminate E|].
    intros _. reflexivity.
  - (* no files *)
    subst tr. split; [intros _ l Hl; discriminate Hl|].
    split; [intros pre ? ? ? post ? E; destruct pre as [|? [|? ?]]; discriminate E|].
    split; [intros pre ? ? ? post ? E; destruct pre as [|? [|? ?]]; discriminate E|].
    intros _. reflexivity.
  - (* the first attempt raised *)
    subst tr. split; [intros Hr; rewrite Er in Hr; discriminate Hr|].
    split.
    { intros pre fs' a h post links E _ Eu _.
      destruct pre as [|y1 [|y2 p]]; cbn [app] in E; injection E; intros; subst.
      - discriminate.
      - rewrite Eup in Eu. discriminate Eu.
      - destruct p; discriminate. }
    split.
    { intros pre fs' a h post links E Hin.
      destruct pre as [|y1 [|y2 p]]; cbn [app] in E; injection E; intros; subst.
      - destruct Hin.
      - destruct Hin as [E'|[]]; discriminate E'.
      - destruct p; discriminate. }
    intros _. reflexivity.
  - (* the first attempt answered links *)
    rewrite Hopen in Etr. subst tr.
    split.
    { intros _ l Hl. cbn [first_link app map] in Hl. injection Hl as <-.
      rewrite !first_system_app. cbn [first_system].
      destruct (map_links_obs (l0 :: ls)) as (_ & _ & Hm & _). rewrite Hm.
      unfold open_events. rewrite Hopen. cbn [andb List.length Nat.eqb negb first_or_empty hd].
      destruct (browser_cmd env_browser); reflexivity. }
    split.
    { intros pre fs' a h post links E _ Eu Hl.
      destruct pre as [|y1 [|y2 p]]; cbn [app] in E.
      - discriminate E.
      - injection E; intros; subst. rewrite Eup in Eu. injection Eu as <-.
        rewrite (open_events_one _ _ _ Hopen Hl). reflexivity.
      - injection E as _ _ E. exfalso.
        destruct (map_links_obs (l0 :: ls)) as (Hm & _ & _ & _).
        destruct (open_events_obs args env_browser (l0 :: ls)) as (Ho & _ & _).
        apply (uploads_ne p fs' a h post). rewrite <- E.
        change (uploads ([MPrint MsgProduced] ++ map (fun l => MPrint (MsgLink l)) (l0 :: ls)
                         ++ open_events args env_browser (l0 :: ls)) = []).
        rewrite !uploads_app, Hm, Ho. reflexivity. }
    split.
    { intros pre fs' a h post links E Hin _ _. exfalso.
      assert (Hf : In (MPrint MsgFallback)
                     ([MPrint (MsgFound (List.length files));
                       MUpload (py_slice files 0 (batch_size args)) (album args) (headful args);
                       MPrint MsgProduced]
                      ++ map (fun l => MPrint (MsgLink l)) (l0 :: ls)
                      ++ open_events args env_browser (l0 :: ls)))
        by (rewrite E; apply in_or_app; left; exact Hin).
      destruct (map_links_printed (l0 :: ls)) as (_ & _ & Hm).
      destruct (open_events_printed args env_browser (l0 :: ls)) as (_ & Ho & _).
      apply in_app_iff in Hf as [Hf|Hf].
      - destruct Hf as [Hf|[Hf|[Hf|[]]]]; discriminate Hf.
      - apply in_app_iff in Hf as [Hf|Hf]; [exact (Hm Hf) | exact (Ho Hf)]. }
    intros Hb. rewrite !systems_app, open_events_systems_none by exact Hb.
    destruct (map_links_printed (l0 :: ls)) as (_ & Hm & _). rewrite Hm. reflexivity.
  - (* the fallback loop *)
    set (pre0 := [MPrint (MsgFound (List.length files));
                  MUpload (py_slice files 0 (batch_size args)) (album args) (headful args);
                  MPrint MsgFallback]) in Hcase.
    assert (Hshape : exists rest, tr = pre0 ++ rest /\
              (forall p fs' a h post links, rest = p ++ MUpload fs' a h :: post ->
                 up (pre0 ++ p) fs' a h = Ok links -> links <> [] ->
                 exists post', post = open_event env_browser links :: post') /\
              (browser_cmd env_browser = None -> systems rest = []) /\
              (r = Ok tt -> forall l, first_link rest = Some l ->
                 first_system rest =
                   option_map (fun c => browser_command c l) (browser_cmd env_browser))).
    { destruct Hcase as [(e & _ & Er & ->)|(is & ev & rl & _ & Hs & Hcase)].
      - exists []. rewrite app_nil_r. split; [reflexivity|].
        split; [intros p ? ? ? ? ? E; destruct p; discriminate E|].
        split; [intros _; reflexivity|]. intros Hr. rewrite Er in Hr. discriminate Hr.
      - destruct Hcase as [(e & -> & Er & ->)|(all & -> & Er & ->)].
        + exists ev. split; [reflexivity|].
          split; [intros p fs' a h post links E; exact (loop_open_after _ _ _ _ _ _ _ _ _ Hs Hopen p fs' a h post links E)|].
          split; [intros Hb; exact (loop_systems_none _ _ _ _ _ _ _ _ _ Hs Hb)|].
          intros Hr. rewrite Er in Hr. discriminate Hr.
        + exists (ev ++ match all with
                        | [] => [MPrint MsgNoLinks]
                        | _ :: _ => MPrint MsgCollected :: map (fun l => MPrint (MsgLink l)) all
                        end).
          split; [reflexivity|].
          destruct (final_events_obs all) as (Hfu & _ & Hfs & Hfl). cbv zeta in Hfu, Hfs, Hfl.
          split.
          { intros p fs' a h post links E Eu Hl.
            destruct (split_before_tail _ _ _ _ _ _ _ Hfu (eq_sym E)) as (q & Ev & ->).
            destruct (loop_open_after _ _ _ _ _ _ _ _ _ Hs Hopen p fs' a h q links Ev Eu Hl)
              as (post' & ->).
            eexists. reflexivity. }
          split.
          { intros Hb. rewrite systems_app, (loop_systems_none _ _ _ _ _ _ _ _ _ Hs Hb).
            apply final_events_systems. }
          intros _ l Hl.
          destruct (loop_opens_first_link _ _ _ _ _ _ _ _ _ Hs Hopen) as (new & -> & Hev & Hsys).
          change ([] ++ new) with new in Hl, Hfl, Hfs |- *.
          rewrite !first_link_app, Hev, Hfl in Hl.
          rewrite !first_system_app, Hsys, Hfs.
          destruct new as [|x new']; [discriminate Hl|]. cbn in Hl. injection Hl as ->.
          destruct (browser_cmd env_browser); reflexivity. }
    destruct Hshape as (rest & -> & Hopen_after & Hnone & Hfirst).
    split.
    { intros Hr l Hl. apply Hfirst; [exact Hr|]. exact Hl. }
    split.
    { intros pre fs' a h post links E Hin Eu Hl. exfalso. unfold pre0 in E.
      destruct pre as [|y1 [|y2 [|y3 p]]]; cbn [app] in E; injection E; intros; subst.
      - discriminate.
      - rewrite Eup in Eu. injection Eu as <-. apply Hl. reflexivity.
      - discriminate.
      - apply Hin. right. right. left. reflexivity. }
    split.
    { intros pre fs' a h post links E Hin Eu Hl.
      destruct (after_fallback_prefix _ _ _ _ _ _ _ _ E Hin) as (p & -> & Ep).
      exact (Hopen_after p fs' a h post links Ep Eu Hl). }
    intros Hb. rewrite systems_app, (Hnone Hb). reflexivity.
Qed.

Lemma main_open_first_link_witness :
  first_system (snd (main (photos_args 1 true) (Some "xdg-open") photos_fs link_uploader)) =
    Some (browser_command "xdg-open" "https://postimg.cc/photos/a.avif") /\
  exists post',
    skipn 8 (snd (main (photos_args 1 true) (Some "xdg-open") photos_fs link_uploader)) =
      MSystem (browser_command "xdg-open" "https://postimg.cc/photos/b.avif") :: post'.
Proof.
  destruct (main_open_first_link (photos_args 1 true) (Some "xdg-open") photos_fs link_uploader
              (fst (main (photos_args 1 true) (Some "xdg-open") photos_fs link_uploader))
              (snd (main (photos_args 1 true) (Some "xdg-open") photos_fs link_uploader))
              eq_refl eq_refl)
    as (H1 & _ & H3 & _).
  split.
  - apply H1; vm_compute; reflexivity.
  - apply (H3 (firstn 7 (snd (main (photos_args 1 true) (Some "xdg-open") photos_fs link_uploader)))
              ["photos/b.avif"] None false _ ["https://postimg.cc/photos/b.avif"]).
    + vm_compute. reflexivity.
    + vm_compute. right. right. left. reflexivity.
    + vm_compute. reflexivity.
    + discriminate.
Defined.

(** C6: the traversal keeps every path whose name matches the pattern,
    directories included; with a subdirectory named [old.avif], the list
    handed to the uploader holds that directory next to the two files. *)
Theorem collect_avif_files_keeps_directories :
  collect_avif_files avif_dir_fs "photos" =
    Ok ["photos/cover.avif"; "photos/old.avif"; "photos/old.avif/x.avif"].
Proof. vm_compute. reflexivity. Qed.

(** * Further properties: theorems *)

(** ** The probes *)

(** find_file_input only looks: it never changes the session. It returns
    the first selector of FILE_INPUT_SELECTORS, in list order, whose lookup
    gives an element, together with that element, every earlier selector
    having found nothing or raised; it returns nothing only when every
    selector found nothing or raised. *)
Theorem find_file_input_first_match pg tr v tr' :
  find_file_input pg tr = (Ok v, tr') ->
  tr' = tr /\
  match v with
  | Some (el, sel) =>
      exists pre post, FILE_INPUT_SELECTORS = pre ++ sel :: post /\
        query_selector pg tr sel = Ok (Some el) /\ Forall (lookup_fails pg tr) pre
  | None => Forall (lookup_fails pg tr) FILE_INPUT_SELECTORS
  end.
Proof. apply find_file_input_in_first. Qed.

Lemma find_file_input_first_match_witness :
  find_file_input (album_page true) [] =
    (Ok (Some (0%nat, hd EmptyString FILE_INPUT_SELECTORS)), []) /\
  exists pre post, FILE_INPUT_SELECTORS = pre ++ hd EmptyString FILE_INPUT_SELECTORS :: post /\
    Forall (lookup_fails (album_page true) []) pre.
Proof.
  assert (H : find_file_input (album_page true) [] =
                (Ok (Some (0%nat, hd EmptyString FILE_INPUT_SELECTORS)), [])) by reflexivity.
  split; [exact H|].
  destruct (find_file_input_first_match _ _ _ _ H) as (_ & pre & post & E & _ & F).
  exists pre, post. split; [exact E | exact F].
Defined.

(** click_upload performs at most one action. When it returns true it has
    clicked an element found by one of UPLOAD_BUTTON_SELECTORS or pressed
    Enter. When it returns false it changed nothing: for every selector the
    lookup found nothing or raised or the click raised, and pressing Enter
    raised as well. *)
Theorem click_upload_outcome pg tr b tr' :
  click_upload pg tr = (Ok b, tr') ->
  if b then
    (exists sel el, In sel UPLOAD_BUTTON_SELECTORS /\
                    query_selector pg tr sel = Ok (Some el) /\ tr' = tr ++ [Click el]) \/
    tr' = tr ++ [Press "Enter"]
  else
    tr' = tr /\ (exists x, act pg tr (Press "Enter") = Exc x) /\
    Forall (fun sel => lookup_fails pg tr sel \/
                       exists el x, query_selector pg tr sel = Ok (Some el) /\
                                    act pg tr (Click el) = Exc x) UPLOAD_BUTTON_SELECTORS.
Proof. apply click_upload_in_outcome. Qed.

Lemma click_upload_outcome_witness :
  click_upload (album_page true) [] = (Ok true, [Click 0%nat]) /\
  ((exists sel el, In sel UPLOAD_BUTTON_SELECTORS /\
                   query_selector (album_page true) [] sel = Ok (Some el) /\
                   [Click 0%nat] = [] ++ [Click el]) \/
   [Click 0%nat] = [] ++ [Press "Enter"]).
Proof.
  assert (H : click_upload (album_page true) [] = (Ok true, [Click 0%nat])) by reflexivity.
  split; [exact H | exact (click_upload_outcome _ _ _ _ H)].
Defined.

(** The album-title probing fills at most one field, with the title, in an
    element found by one of ALBUM_INPUT_SELECTORS; otherwise it changes
    nothing. *)
Theorem fill_album_title_outcome pg title tr u tr' :
  fill_album_title pg title tr = (Ok u, tr') ->
  tr' = tr \/
  exists sel el, In sel ALBUM_INPUT_SELECTORS /\ query_selector pg tr sel = Ok (Some el) /\
                 tr' = tr ++ [Fill el title].
Proof. apply fill_album_title_in_outcome. Qed.

Lemma fill_album_title_outcome_witness :
  fill_album_title (album_page true) "Quiz" [] = (Ok tt, [Fill 0%nat "Quiz"]) /\
  ([Fill 0%nat "Quiz"] = [] \/
   exists sel el, In sel ALBUM_INPUT_SELECTORS /\
     query_selector (album_page true) [] sel = Ok (Some el) /\
     [Fill 0%nat "Quiz"] = [] ++ [Fill el "Quiz"]).
Proof.
  assert (H : fill_album_title (album_page true) "Quiz" [] = (Ok tt, [Fill 0%nat "Quiz"]))
    by reflexivity.
  split; [exact H | exact (fill_album_title_outcome _ _ _ _ _ H)].
Defined.

(** ** collect_result_links *)

(** Whether it returns or raises, the only actions collect_result_links
    performs are waits, and it waits at most timeout_ms / 2000 + 1 times. *)
Theorem collect_result_links_only_waits pg T tr r tr' :
  collect_result_links pg T tr = (r, tr') ->
  exists ev, tr' = tr ++ ev /\ Forall is_wait ev /\
             (List.length ev <= S (Z.to_nat (T / STEP)))%nat.
Proof. apply poll_waits. Qed.

Lemma collect_result_links_only_waits_witness :
  collect_result_links quiet_page 120000 [] = (Ok [], repeat (Wait 2000) 60) /\
  (List.length (repeat (Wait 2000) 60) <= 61)%nat.
Proof.
  assert (H : collect_result_links quiet_page 120000 [] = (Ok [], repeat (Wait 2000) 60))
    by (vm_compute; reflexivity).
  split; [exact H|].
  destruct (collect_result_links_only_waits _ _ _ _ _ H) as (ev & E & _ & L).
  simpl in E. subst ev. exact L.
Defined.

(** ** upload_files *)

(** When upload_files returns, the session it ran launched the browser
    (headless unless headful), opened a page, loaded postimages.org, and its
    last action closed the browser. *)
Theorem upload_files_closes_browser pg fs a h tr l tr' :
  upload_files pg fs a h tr = (Ok l, tr') ->
  exists mid, tr' = tr ++ [Launch (negb h); NewPage; Goto URL] ++ mid ++ [Close].
Proof.
  intros H. destruct (upload_files_trace _ _ _ _ _ _ _ H) as (mid & E & _).
  exists mid. exact E.
Qed.

Lemma upload_files_closes_browser_witness :
  exists mid, snd (upload_files (album_page false) ["a.avif"; "b.avif"] None true []) =
              [Launch false; NewPage; Goto URL] ++ mid ++ [Close].
Proof.
  apply (upload_files_closes_browser (album_page false) ["a.avif"; "b.avif"] None true []
           (["https://postimg.cc/gallery/quiz"])).
  vm_compute. reflexivity.
Defined.

(** When upload_files returns, the files set on the file input are the
    given files, each once and in order: all in one go, or one file at a
    time; no file is set only when the file input was not found, and then
    the result is empty. *)
Theorem upload_files_sets_files_once pg fs a h tr l tr' :
  upload_files pg fs a h tr = (Ok l, tr') ->
  exists ev, tr' = tr ++ ev /\
    ((setfiles ev = [] /\ l = []) \/ setfiles ev = [fs] \/
     setfiles ev = map (fun f => [f]) fs).
Proof.
  intros H. destruct (upload_files_trace _ _ _ _ _ _ _ H) as (mid & -> & Hs & _).
  exists ([Launch (negb h); NewPage; Goto URL] ++ mid ++ [Close]). split; [reflexivity|].
  rewrite !setfiles_app. cbn [setfiles app]. rewrite app_nil_r. exact Hs.
Qed.

Lemma upload_files_sets_files_once_witness :
  setfiles (snd (upload_files (album_page false) ["a.avif"; "b.avif"] None false [])) =
    [["a.avif"]; ["b.avif"]] /\
  exists ev, snd (upload_files (album_page true) ["a.avif"; "b.avif"] None false []) = [] ++ ev /\
    ((setfiles ev = [] /\ ["https://postimg.cc/gallery/quiz"] = []) \/
     setfiles ev = [["a.avif"; "b.avif"]] \/
     setfiles ev = map (fun f => [f]) ["a.avif"; "b.avif"]).
Proof.
  split; [vm_compute; reflexivity|].
  apply (upload_files_sets_files_once (album_page true) ["a.avif"; "b.avif"] None false []
           ["https://postimg.cc/gallery/quiz"]).
  vm_compute. reflexivity.
Defined.

(** When upload_files returns, it has filled at most one field, and only
    with the album title it was given, which is non-empty; with no album
    title, or an empty one, it fills nothing. *)
Theorem upload_files_fills_title_once pg fs a h tr l tr' :
  upload_files pg fs a h tr = (Ok l, tr') ->
  exists ev, tr' = tr ++ ev /\ (List.length (fills ev) <= 1)%nat /\
    Forall (fun s => a = Some s /\ s <> EmptyString) (fills ev).
Proof.
  intros H. destruct (upload_files_trace _ _ _ _ _ _ _ H) as (mid & -> & _ & Hf & Hl).
  exists ([Launch (negb h); NewPage; Goto URL] ++ mid ++ [Close]). split; [reflexivity|].
  rewrite !fills_app. cbn [fills app]. rewrite app_nil_r. split; [exact Hl | exact Hf].
Qed.

Lemma upload_files_fills_title_once_witness :
  fills (snd (upload_files (album_page false) ["a.avif"; "b.avif"] (Some "Quiz") false [])) =
    ["Quiz"] /\
  exists ev, snd (upload_files (album_page false) ["a.avif"; "b.avif"] (Some "Quiz") false [])
             = [] ++ ev /\ (List.length (fills ev) <= 1)%nat /\
    Forall (fun s => Some "Quiz" = Some s /\ s <> EmptyString) (fills ev).
Proof.
  split; [vm_compute; reflexivity|].
  apply (upload_files_fills_title_once (album_page false) ["a.avif"; "b.avif"] (Some "Quiz")
           false [] ["https://postimg.cc/gallery/quiz"]).
  vm_compute. reflexivity.
Defined.

(** ** main *)

(** With a directory that holds no .avif file, main prints that it found
    none and stops: it never starts an upload. *)
Theorem main_no_files args env_browser fs up :
  collect_avif_files fs (dir args) = Ok [] ->
  main args env_browser fs up = (Ok tt, [MPrint (MsgNoFiles (dir args))]).
Proof. intros H. unfold main, bind, lift. rewrite H. reflexivity. Qed.

Lemma main_no_files_witness :
  collect_avif_files (fun p => if String.eqb p "empty" then Some (Dir []) else None) "empty"
    = Ok [] /\
  main {| dir := "empty"; album := None; headful := false; open_ := true; batch_size := 500 |}
       None (fun p => if String.eqb p "empty" then Some (Dir []) else None) link_uploader =
    (Ok tt, [MPrint (MsgNoFiles "empty")]).
Proof.
  split; [reflexivity|].
  apply (main_no_files
           {| dir := "empty"; album := None; headful := false; open_ := true; batch_size := 500 |}
           None (fun p => if String.eqb p "empty" then Some (Dir []) else None) link_uploader).
  reflexivity.
Defined.

(** When the first upload attempt gives links, main makes no other upload,
    prints those links in the order returned, and never falls back to
    batches. *)
Theorem main_first_attempt_links args env_browser fs up files l ls :
  collect_avif_files fs (dir args) = Ok files ->
  files <> [] ->
  up [MPrint (MsgFound (List.length files))] (py_slice files 0 (batch_size args))
     (album args) (headful args) = Ok (l :: ls) ->
  exists tr, main args env_browser fs up = (Ok tt, tr) /\
    uploads tr = [py_slice files 0 (batch_size args)] /\
    printed_links tr = l :: ls /\
    ~ In (MPrint MsgFallback) tr.
Proof.
  intros Hc Hne Hup.
  destruct (main args env_browser fs up) as [r tr] eqn:H. exists tr.
  destruct (main_cases _ _ _ _ _ _ H)
    as [[(e & Ec & _ & _)|[(Ec & _ & _)|(files' & e & Ec & _ & Eu & _ & _)]]
       |[(files' & l' & ls' & Ec & _ & Eu & -> & ->)
        |(files' & Ec & _ & Eu & _)]];
    rewrite Hc in Ec; try discriminate Ec; injection Ec as Ec; (subst files' || subst files).
  - exfalso. apply Hne. reflexivity.
  - rewrite Hup in Eu. discriminate Eu.
  - rewrite Hup in Eu. injection Eu as <- <-.
    destruct (map_links_obs (l :: ls)) as (Hu & _ & _ & _).
    destruct (map_links_printed (l :: ls)) as (Hp & _ & Hf).
    destruct (open_events_obs args env_browser (l :: ls)) as (Ou & _ & _).
    destruct (open_events_printed args env_browser (l :: ls)) as (Op & Of & _).
    split; [reflexivity|]. split; [|split].
    + rewrite !uploads_app, Hu. destruct (open_ args); [rewrite Ou|]; reflexivity.
    + rewrite !printed_links_app, Hp. destruct (open_ args); [rewrite Op|];
        cbn [printed_links app]; rewrite ?app_nil_r; reflexivity.
    + rewrite !in_app_iff. intros [E|[E|E]].
      * simpl in E. intuition discriminate.
      * exact (Hf E).
      * destruct (open_ args); [exact (Of E) | destruct E].
  - rewrite Hup in Eu. discriminate Eu.
Qed.

Lemma main_first_attempt_links_witness :
  exists tr, main (photos_args 500 false) None photos_fs (fun _ fs _ _ => Ok fs) = (Ok tt, tr) /\
    uploads tr = [py_slice ["photos/a.avif"; "photos/b.avif"; "photos/c.avif"] 0 500] /\
    printed_links tr = ["photos/a.avif"; "photos/b.avif"; "photos/c.avif"] /\
    ~ In (MPrint MsgFallback) tr.
Proof.
  apply (main_first_attempt_links (photos_args 500 false) None photos_fs (fun _ fs _ _ => Ok fs)
           ["photos/a.avif"; "photos/b.avif"; "photos/c.avif"] "photos/a.avif"
           ["photos/b.avif"; "photos/c.avif"]).
  - vm_compute. reflexivity.
  - discriminate.
  - vm_compute. reflexivity.
Defined.

(** With --batch-size 0, the first upload attempt is made with no file;
    if it gives no link, main prints the fallback message and raises the
    ValueError of range(0, N, 0). *)
Theorem main_batch_size_zero args env_browser fs up files :
  batch_size args = 0%Z ->
  collect_avif_files fs (dir args) = Ok files ->
  files <> [] ->
  up [MPrint (MsgFound (List.length files))] [] (album args) (headful args) = Ok [] ->
  main args env_browser fs up =
  (Exc (ValueError "range() arg 3 must not be zero"),
   [MPrint (MsgFound (List.length files)); MUpload [] (album args) (headful args);
    MPrint MsgFallback]).
Proof.
  intros Hbs Hc Hne Hup0.
  assert (Hup : up [MPrint (MsgFound (List.length files))] (py_slice files 0 (batch_size args))
                   (album args) (headful args) = Ok [])
    by (rewrite Hbs, py_slice_zero_zero; exact Hup0).
  destruct (main args env_browser fs up) as [r tr] eqn:H.
  destruct (main_cases _ _ _ _ _ _ H)
    as [[(e & Ec & _ & _)|[(Ec & _ & _)|(files' & e & Ec & _ & Eu & _ & _)]]
       |[(files' & l' & ls' & Ec & _ & Eu & _ & _)
        |(files' & Ec & _ & _ & [(e & Er & -> & ->)|(is & ev & rl & Er & _ & _)])]];
    rewrite Hc in Ec; try discriminate Ec; injection Ec as Ec; (subst files' || subst files).
  - exfalso. apply Hne. reflexivity.
  - rewrite Hup in Eu. discriminate Eu.
  - rewrite Hup in Eu. discriminate Eu.
  - rewrite Hbs in Er |- *. unfold py_range in Er. cbn in Er. injection Er as <-.
    rewrite py_slice_zero_zero. reflexivity.
  - rewrite Hbs in Er. discriminate Er.
Qed.

Lemma main_batch_size_zero_witness :
  main (photos_args 0 false) None photos_fs link_uploader =
  (Exc (ValueError "range() arg 3 must not be zero"),
   [MPrint (MsgFound 3); MUpload [] (Some "Quiz") false; MPrint MsgFallback]).
Proof.
  apply (main_batch_size_zero (photos_args 0 false) None photos_fs link_uploader
           ["photos/a.avif"; "photos/b.avif"; "photos/c.avif"]).
  - reflexivity.
  - vm_compute. reflexivity.
  - discriminate.
  - reflexivity.
Defined.

(** With a negative --batch-size k, the first upload attempt leaves out the
    last |k| files (files[:k]); if it gives no link, range(0, N, k) is empty,
    so main uploads nothing more and ends by printing that no links were
    produced. *)
Theorem main_batch_size_negative args env_browser fs up files :
  (batch_size args < 0)%Z ->
  collect_avif_files fs (dir args) = Ok files ->
  files <> [] ->
  up [MPrint (MsgFound (List.length files))]
     (firstn (Z.to_nat (Z.of_nat (List.length files) + batch_size args)) files)
     (album args) (headful args) = Ok [] ->
  main args env_browser fs up =
  (Ok tt,
   [MPrint (MsgFound (List.length files));
    MUpload (firstn (Z.to_nat (Z.of_nat (List.length files) + batch_size args)) files)
            (album args) (headful args);
    MPrint MsgFallback; MPrint MsgNoLinks]).
Proof.
  intros Hbs Hc Hne Hup.
  rewrite <- (py_slice_neg files _ Hbs) in Hup |- *.
  destruct (main args env_browser fs up) as [r tr] eqn:H.
  destruct (main_cases _ _ _ _ _ _ H)
    as [[(e & Ec & _ & _)|[(Ec & _ & _)|(files' & e & Ec & _ & Eu & _ & _)]]
       |[(files' & l' & ls' & Ec & _ & Eu & _ & _)
        |(files' & Ec & _ & _ & [(e & Er & _ & _)|(is & ev & rl & Er & Hs & Hcase)])]];
    rewrite Hc in Ec; try discriminate Ec; injection Ec as Ec; (subst files' || subst files).
  - exfalso. apply Hne. reflexivity.
  - rewrite Hup in Eu. discriminate Eu.
  - rewrite Hup in Eu. discriminate Eu.
  - unfold py_range in Er. destruct (batch_size args =? 0)%Z eqn:E0;
      [apply Z.eqb_eq in E0; lia|].
    destruct (0 <? batch_size args)%Z; discriminate Er.
  - unfold py_range in Er.
    replace (batch_size args =? 0)%Z with false in Er by (symmetry; apply Z.eqb_neq; lia).
    replace (0 <? batch_size args)%Z with false in Er by (symmetry; apply Z.ltb_ge; lia).
    replace (Z.to_nat (0 - Z.of_nat (List.length files))) with 0%nat in Er by lia.
    cbn in Er. injection Er as <-.
    inversion Hs; subst.
    destruct Hcase as [(e & E & _ & _)|(all & E & -> & ->)]; [discriminate E|].
    injection E as <-. reflexivity.
Qed.

Lemma main_batch_size_negative_witness :
  main (photos_args (-1) false) None photos_fs link_uploader =
  (Ok tt, [MPrint (MsgFound 3); MUpload ["photos/a.avif"; "photos/b.avif"] (Some "Quiz") false;
           MPrint MsgFallback; MPrint MsgNoLinks]).
Proof.
  apply (main_batch_size_negative (photos_args (-1) false) None photos_fs link_uploader
           ["photos/a.avif"; "photos/b.avif"; "photos/c.avif"]).
  - reflexivity.
  - vm_compute. reflexivity.
  - discriminate.
  - reflexivity.
Defined.

(** Without --open, main never runs a shell command, whatever happens. *)
Theorem main_no_open_no_command args env_browser fs up r tr :
  open_ args = false ->
  main args env_browser fs up = (r, tr) ->
  systems tr = [].
Proof.
  intros Ho H.
  destruct (main_cases _ _ _ _ _ _ H)
    as [[(e & _ & _ & ->)|[(_ & _ & ->)|(files & e & _ & _ & _ & _ & ->)]]
       |[(files & l & ls & _ & _ & _ & _ & ->)
        |(files & _ & _ & _ & [(e & _ & _ & ->)|(is & ev & rl & _ & Hs & Hcase)])]];
    try reflexivity.
  - rewrite Ho, app_nil_r, systems_app. rewrite (proj1 (proj2 (map_links_printed (l :: ls)))).
    reflexivity.
  - pose proof (loop_no_open_systems _ _ _ _ _ _ _ _ _ Hs Ho) as Hev.
    destruct Hcase as [(e & _ & _ & ->)|(all & _ & _ & ->)].
    + rewrite systems_app, Hev. reflexivity.
    + rewrite !systems_app, Hev, final_events_systems. reflexivity.
Qed.

Lemma main_no_open_no_command_witness :
  systems (snd (main (photos_args 1 false) (Some "xdg-open") photos_fs link_uploader)) = [].
Proof.
  apply (main_no_open_no_command (photos_args 1 false) (Some "xdg-open") photos_fs link_uploader
           (fst (main (photos_args 1 false) (Some "xdg-open") photos_fs link_uploader))).
  - reflexivity.
  - destruct (main _ _ _ _); reflexivity.
Defined.
